(** * pianobar-save: the player worker of [src/player.c]

    A shallow embedding of the single-song player: the interrupt callback
    [intCb], the stream opener [openStream], the play loop [play], the
    resource release [finish] and the worker [BarPlayerThread].

    The media libraries (libavformat, libavcodec, libavfilter, libao), the
    file system and the control thread are the environment.  Every answer
    the environment gives is read from a finite _script_; the worker is a
    function of the script and of the player structure and returns the new
    player structure together with the trace of library calls it made.  A
    script that runs out answers [AVERROR_EOF], which is what the libraries
    answer at the end of a stream. *)

From Stdlib Require Import ZArith List String Ascii QArith Bool Lia.
Import ListNotations.
Local Open Scope Z_scope.

(** ** Library constants and packets *)

Module Libav.

(** [MKTAG(a,b,c,d)] and [FFERRTAG] of libavutil/error.h. *)
Definition MKTAG (a b c d : Z) : Z :=
  Z.lor a (Z.lor (Z.shiftl b 8) (Z.lor (Z.shiftl c 16) (Z.shiftl d 24))).
Definition FFERRTAG (a b c d : Z) : Z := - MKTAG a b c d.

Definition chr (c : ascii) : Z := Z.of_nat (nat_of_ascii c).

Definition AVERROR_EOF : Z := FFERRTAG (chr "E") (chr "O") (chr "F") (chr " ").
Definition AVERROR_INVALIDDATA : Z :=
  FFERRTAG (chr "I") (chr "N") (chr "D") (chr "A").
Definition AVERROR_EXIT : Z := FFERRTAG (chr "E") (chr "X") (chr "I") (chr "T").
(** [AVERROR(EAGAIN)] on Linux. *)
Definition AVERROR_EAGAIN : Z := -11.
(** [AV_NOPTS_VALUE] is [INT64_MIN]. *)
Definition AV_NOPTS_VALUE : Z := - 2 ^ 63.

Record AVRational := mkRational { num : Z; den : Z }.

(** [av_q2d]: the rational as a number of seconds (the C code uses a
    double; the embedding keeps the exact rational). *)
Definition av_q2d (a : AVRational) : Q :=
  Qmake (num a) 1 / Qmake (den a) 1.

(** [av_rescale_q a bq cq]: [a * bq / cq] rounded to the nearest integer,
    ties away from zero ([AV_ROUND_NEAR_INF]), as libavutil computes it for
    positive time bases. *)
Definition av_rescale_q (a : Z) (bq cq : AVRational) : Z :=
  let b := num bq * den cq in
  let c := num cq * den bq in
  if a <? 0 then - ((- a * b + c / 2) / c) else (a * b + c / 2) / c.

Record AVPacket := mkPacket {
  stream_index : Z;
  pts : Z;
  dts : Z;
  payload : option nat  (* [data]/[size]: [None] is [data = NULL, size = 0] *)
}.

(** The packet [av_init_packet] and [av_packet_unref] leave behind. *)
Definition blank_packet : AVPacket :=
  mkPacket 0 AV_NOPTS_VALUE AV_NOPTS_VALUE None.

End Libav.
Export Libav.

(** ** The player structure *)

(** A handle the player owns: null, or allocated and open. *)
Inductive ptr := NULL | Open.

(** Modelled from the spec: the mode and result enumerations of player.h,
    which is not among the sources; the names are those [player.c] uses. *)
Inductive BarPlayerMode :=
  PLAYER_DEAD | PLAYER_WAITING | PLAYER_PLAYING | PLAYER_FINISHED.

Inductive player_ret := PLAYER_RET_OK | PLAYER_RET_HARDFAIL | PLAYER_RET_SOFTFAIL.

(** The settings [player.c] reads. *)
Record BarSettings_t := mkSettings {
  save_dir : option string;   (* [NULL] when saving is not configured *)
  volume : Z;
  gainMul : Q
}.

(** The selected input stream [player->st]. *)
Record AVStream := mkStream {
  time_base : AVRational;
  duration : Z
}.

(** The tee muxer [player->ofcx] with its single output stream
    [player->ost]. *)
Record muxer := mkMuxer {
  mux_path : string;
  ost_id : Z;
  ost_time_base : AVRational
}.

(** Modelled from the spec: the declaration of [player_t] in player.h,
    which is not among the sources.  The fields are those [player.c] reads
    and writes; [songPlayed] and [songDuration] are seconds, kept as exact
    rationals. *)
Record player_t := mkPlayer {
  url : string;
  artist : string;
  album : string;
  title : string;
  album_art : string;
  settings : BarSettings_t;
  gain : Q;
  mode : BarPlayerMode;
  doQuit : bool;
  doPause : bool;
  interrupted : Z;
  fctx : ptr;
  codec_time_base0 : AVRational;   (* [fctx->streams[0]->codec->time_base] *)
  cctx : ptr;
  fgraph : ptr;
  aoDev : ptr;
  streamIdx : Z;
  st : AVStream;
  lastTimestamp : Z;
  songPlayed : Q;
  songDuration : Q;
  save_file : bool;
  ofcx : option muxer;
  tmp_filename : string;
  save_complete : string;
  pkt_write : AVPacket
}.

(** Field updates, one per field the worker writes. *)

Definition set_mode (v : BarPlayerMode) (p : player_t) : player_t :=
  mkPlayer (url p) (artist p) (album p) (title p) (album_art p) (settings p)
    (gain p) v (doQuit p) (doPause p) (interrupted p) (fctx p)
    (codec_time_base0 p) (cctx p) (fgraph p) (aoDev p) (streamIdx p) (st p)
    (lastTimestamp p) (songPlayed p) (songDuration p) (save_file p) (ofcx p)
    (tmp_filename p) (save_complete p) (pkt_write p).

Definition set_doQuit (v : bool) (p : player_t) : player_t :=
  mkPlayer (url p) (artist p) (album p) (title p) (album_art p) (settings p)
    (gain p) (mode p) v (doPause p) (interrupted p) (fctx p)
    (codec_time_base0 p) (cctx p) (fgraph p) (aoDev p) (streamIdx p) (st p)
    (lastTimestamp p) (songPlayed p) (songDuration p) (save_file p) (ofcx p)
    (tmp_filename p) (save_complete p) (pkt_write p).

Definition set_doPause (v : bool) (p : player_t) : player_t :=
  mkPlayer (url p) (artist p) (album p) (title p) (album_art p) (settings p)
    (gain p) (mode p) (doQuit p) v (interrupted p) (fctx p)
    (codec_time_base0 p) (cctx p) (fgraph p) (aoDev p) (streamIdx p) (st p)
    (lastTimestamp p) (songPlayed p) (songDuration p) (save_file p) (ofcx p)
    (tmp_filename p) (save_complete p) (pkt_write p).

Definition set_interrupted (v : Z) (p : player_t) : player_t :=
  mkPlayer (url p) (artist p) (album p) (title p) (album_art p) (settings p)
    (gain p) (mode p) (doQuit p) (doPause p) v (fctx p) (codec_time_base0 p)
    (cctx p) (fgraph p) (aoDev p) (streamIdx p) (st p) (lastTimestamp p)
    (songPlayed p) (songDuration p) (save_file p) (ofcx p) (tmp_filename p)
    (save_complete p) (pkt_write p).

Definition set_fctx (v : ptr) (p : player_t) : player_t :=
  mkPlayer (url p) (artist p) (album p) (title p) (album_art p) (settings p)
    (gain p) (mode p) (doQuit p) (doPause p) (interrupted p) v
    (codec_time_base0 p) (cctx p) (fgraph p) (aoDev p) (streamIdx p) (st p)
    (lastTimestamp p) (songPlayed p) (songDuration p) (save_file p) (ofcx p)
    (tmp_filename p) (save_complete p) (pkt_write p).

Definition set_codec_time_base0 (v : AVRational) (p : player_t) : player_t :=
  mkPlayer (url p) (artist p) (album p) (title p) (album_art p) (settings p)
    (gain p) (mode p) (doQuit p) (doPause p) (interrupted p) (fctx p) v
    (cctx p) (fgraph p) (aoDev p) (streamIdx p) (st p) (lastTimestamp p)
    (songPlayed p) (songDuration p) (save_file p) (ofcx p) (tmp_filename p)
    (save_complete p) (pkt_write p).

Definition set_cctx (v : ptr) (p : player_t) : player_t :=
  mkPlayer (url p) (artist p) (album p) (title p) (album_art p) (settings p)
    (gain p) (mode p) (doQuit p) (doPause p) (interrupted p) (fctx p)
    (codec_time_base0 p) v (fgraph p) (aoDev p) (streamIdx p) (st p)
    (lastTimestamp p) (songPlayed p) (songDuration p) (save_file p) (ofcx p)
    (tmp_filename p) (save_complete p) (pkt_write p).

Definition set_fgraph (v : ptr) (p : player_t) : player_t :=
  mkPlayer (url p) (artist p) (album p) (title p) (album_art p) (settings p)
    (gain p) (mode p) (doQuit p) (doPause p) (interrupted p) (fctx p)
    (codec_time_base0 p) (cctx p) v (aoDev p) (streamIdx p) (st p)
    (lastTimestamp p) (songPlayed p) (songDuration p) (save_file p) (ofcx p)
    (tmp_filename p) (save_complete p) (pkt_write p).

Definition set_aoDev (v : ptr) (p : player_t) : player_t :=
  mkPlayer (url p) (artist p) (album p) (title p) (album_art p) (settings p)
    (gain p) (mode p) (doQuit p) (doPause p) (interrupted p) (fctx p)
    (codec_time_base0 p) (cctx p) (fgraph p) v (streamIdx p) (st p)
    (lastTimestamp p) (songPlayed p) (songDuration p) (save_file p) (ofcx p)
    (tmp_filename p) (save_complete p) (pkt_write p).

Definition set_streamIdx (v : Z) (p : player_t) : player_t :=
  mkPlayer (url p) (artist p) (album p) (title p) (album_art p) (settings p)
    (gain p) (mode p) (doQuit p) (doPause p) (interrupted p) (fctx p)
    (codec_time_base0 p) (cctx p) (fgraph p) (aoDev p) v (st p)
    (lastTimestamp p) (songPlayed p) (songDuration p) (save_file p) (ofcx p)
    (tmp_filename p) (save_complete p) (pkt_write p).

Definition set_st (v : AVStream) (p : player_t) : player_t :=
  mkPlayer (url p) (artist p) (album p) (title p) (album_art p) (settings p)
    (gain p) (mode p) (doQuit p) (doPause p) (interrupted p) (fctx p)
    (codec_time_base0 p) (cctx p) (fgraph p) (aoDev p) (streamIdx p) v
    (lastTimestamp p) (songPlayed p) (songDuration p) (save_file p) (ofcx p)
    (tmp_filename p) (save_complete p) (pkt_write p).

Definition set_lastTimestamp (v : Z) (p : player_t) : player_t :=
  mkPlayer (url p) (artist p) (album p) (title p) (album_art p) (settings p)
    (gain p) (mode p) (doQuit p) (doPause p) (interrupted p) (fctx p)
    (codec_time_base0 p) (cctx p) (fgraph p) (aoDev p) (streamIdx p) (st p) v
    (songPlayed p) (songDuration p) (save_file p) (ofcx p) (tmp_filename p)
    (save_complete p) (pkt_write p).

Definition set_songPlayed (v : Q) (p : player_t) : player_t :=
  mkPlayer (url p) (artist p) (album p) (title p) (album_art p) (settings p)
    (gain p) (mode p) (doQuit p) (doPause p) (interrupted p) (fctx p)
    (codec_time_base0 p) (cctx p) (fgraph p) (aoDev p) (streamIdx p) (st p)
    (lastTimestamp p) v (songDuration p) (save_file p) (ofcx p)
    (tmp_filename p) (save_complete p) (pkt_write p).

Definition set_songDuration (v : Q) (p : player_t) : player_t :=
  mkPlayer (url p) (artist p) (album p) (title p) (album_art p) (settings p)
    (gain p) (mode p) (doQuit p) (doPause p) (interrupted p) (fctx p)
    (codec_time_base0 p) (cctx p) (fgraph p) (aoDev p) (streamIdx p) (st p)
    (lastTimestamp p) (songPlayed p) v (save_file p) (ofcx p) (tmp_filename p)
    (save_complete p) (pkt_write p).

Definition set_save_file (v : bool) (p : player_t) : player_t :=
  mkPlayer (url p) (artist p) (album p) (title p) (album_art p) (settings p)
    (gain p) (mode p) (doQuit p) (doPause p) (interrupted p) (fctx p)
    (codec_time_base0 p) (cctx p) (fgraph p) (aoDev p) (streamIdx p) (st p)
    (lastTimestamp p) (songPlayed p) (songDuration p) v (ofcx p)
    (tmp_filename p) (save_complete p) (pkt_write p).

Definition set_ofcx (v : option muxer) (p : player_t) : player_t :=
  mkPlayer (url p) (artist p) (album p) (title p) (album_art p) (settings p)
    (gain p) (mode p) (doQuit p) (doPause p) (interrupted p) (fctx p)
    (codec_time_base0 p) (cctx p) (fgraph p) (aoDev p) (streamIdx p) (st p)
    (lastTimestamp p) (songPlayed p) (songDuration p) (save_file p) v
    (tmp_filename p) (save_complete p) (pkt_write p).

Definition set_tmp_filename (v : string) (p : player_t) : player_t :=
  mkPlayer (url p) (artist p) (album p) (title p) (album_art p) (settings p)
    (gain p) (mode p) (doQuit p) (doPause p) (interrupted p) (fctx p)
    (codec_time_base0 p) (cctx p) (fgraph p) (aoDev p) (streamIdx p) (st p)
    (lastTimestamp p) (songPlayed p) (songDuration p) (save_file p) (ofcx p) v
    (save_complete p) (pkt_write p).

Definition set_save_complete (v : string) (p : player_t) : player_t :=
  mkPlayer (url p) (artist p) (album p) (title p) (album_art p) (settings p)
    (gain p) (mode p) (doQuit p) (doPause p) (interrupted p) (fctx p)
    (codec_time_base0 p) (cctx p) (fgraph p) (aoDev p) (streamIdx p) (st p)
    (lastTimestamp p) (songPlayed p) (songDuration p) (save_file p) (ofcx p)
    (tmp_filename p) v (pkt_write p).

Definition set_pkt_write (v : AVPacket) (p : player_t) : player_t :=
  mkPlayer (url p) (artist p) (album p) (title p) (album_art p) (settings p)
    (gain p) (mode p) (doQuit p) (doPause p) (interrupted p) (fctx p)
    (codec_time_base0 p) (cctx p) (fgraph p) (aoDev p) (streamIdx p) (st p)
    (lastTimestamp p) (songPlayed p) (songDuration p) (save_file p) (ofcx p)
    (tmp_filename p) (save_complete p) v.

(** ** Library calls and environment scripts *)

(** One constructor per library or system call the worker makes; a call
    carries the arguments and answers the claims below speak about. *)
Inductive event :=
| EvOpenInput (u : string)
| EvFindStreamInfo
| EvFindBestStream
| EvSeekFrame (idx ts : Z)
| EvSystem (cmd : string)
| EvMkdir (path : string)
| EvCurlPerform (u path : string)
| EvGuessFormat (path : string)
| EvAvioOpen (path : string) (ret : Z)
| EvNewStream
| EvWriteHeader (ret : Z)
| EvMsg (msg : string)
| EvSendCommandVolume (dB : Q)
| EvGraphAlloc
| EvAoOpenLive
| EvReadFrame (ret : Z) (pkt : AVPacket)
| EvSendPacket (pkt : option AVPacket)
| EvPacketUnref (pkt : AVPacket)
| EvWriteFrame (pkt : AVPacket)
| EvReadPause
| EvCondWait
| EvReadPlay
| EvReceiveFrame (ret : Z)
| EvBuffersrcWriteFrame (frame_pts : Z)
| EvAoPlay (bytes : Z)
| EvAoClose (dev : ptr)
| EvGraphFree
| EvCodecClose
| EvCloseInput
| EvWriteTrailer
| EvFreeContext
| EvAvioClose.

(** What happens behind the worker's back while it sits in a library
    call: the control thread writes [interrupted], [doQuit] or [doPause],
    and libavformat polls the interrupt callback installed by
    [openStream]. *)
Inductive async :=
| CtlInterrupt (v : Z)
| CtlQuit
| CtlPause (b : bool)
| Poll.

(** ** [intCb] *)

(** Returns the callback's result and the player structure it leaves. *)
Definition intCb (player : player_t) : Z * player_t :=
  if 1 <? interrupted player then
    (1, set_doQuit true player)
  else if negb (interrupted player =? 0) then
    (1, set_interrupted 0 player)
  else
    (0, player).

Definition async_step (player : player_t) (a : async) : player_t :=
  match a with
  | CtlInterrupt v => set_interrupted v player
  | CtlQuit => set_doQuit true player
  | CtlPause b => set_doPause b player
  | Poll => snd (intCb player)
  end.

Definition run_async (l : list async) (player : player_t) : player_t :=
  fold_left async_step l player.

(** ** [finish] *)

Definition finish (player : player_t) : player_t * list event :=
  let ev1 := [EvAoClose (aoDev player)] in
  let p1 := set_aoDev NULL player in
  let '(p2, ev2) :=
    match fgraph p1 with
    | Open => (set_fgraph NULL p1, [EvGraphFree])
    | NULL => (p1, [])
    end in
  let '(p3, ev3) :=
    match cctx p2 with
    | Open => (set_cctx NULL p2, [EvCodecClose])
    | NULL => (p2, [])
    end in
  let '(p4, ev4) :=
    match fctx p3 with
    | Open => (set_fctx NULL p3, [EvCloseInput])   (* avformat_close_input nulls it *)
    | NULL => (p3, [])
    end in
  (p4, ev1 ++ ev2 ++ ev3 ++ ev4).

(** The resources a trace releases, in order.  [ao_close(NULL)] releases
    nothing. *)
Inductive resource := OutputDevice | FilterGraph | Decoder | Demuxer.

Definition released_by (e : event) : list resource :=
  match e with
  | EvAoClose Open => [OutputDevice]
  | EvGraphFree => [FilterGraph]
  | EvCodecClose => [Decoder]
  | EvCloseInput => [Demuxer]
  | _ => []
  end.

Definition released (tr : list event) : list resource :=
  flat_map released_by tr.

Definition is_open (x : ptr) : bool :=
  match x with Open => true | NULL => false end.

(** The resources the player structure holds, in [finish]'s order. *)
Definition held (player : player_t) : list resource :=
  (if is_open (aoDev player) then [OutputDevice] else []) ++
  (if is_open (fgraph player) then [FilterGraph] else []) ++
  (if is_open (cctx player) then [Decoder] else []) ++
  (if is_open (fctx player) then [Demuxer] else []).

(** ** Tag strings and paths *)

Module Tags.
Local Open Scope string_scope.

Definition dquote : ascii := ascii_of_nat 34.
Definition backslash : ascii := ascii_of_nat 92.
Definition dq : string := String dquote EmptyString.

(** The loop that copies [player->artist] into [artist[100]] (and the
    same loop for the album, and in [BarPlayerThread] for artist, album
    and title): a double quote gets a backslash in front, a slash becomes
    a space, any other byte is copied.  The embedding has no buffer bound;
    the C code is defined for tags whose copy fits 99 bytes. *)
Fixpoint escape_tag (s : string) : string :=
  match s with
  | EmptyString => EmptyString
  | String c s' =>
      if Ascii.eqb c dquote then String backslash (String c (escape_tag s'))
      else if Ascii.eqb c "/" then String " " (escape_tag s')
      else String c (escape_tag s')
  end.

(** The loop over [save_filename]: a slash becomes a space, a dollar
    becomes [S]; nothing else is touched. *)
Definition filename_byte (c : ascii) : ascii :=
  if Ascii.eqb c "/" then " "%char
  else if Ascii.eqb c "$" then "S"%char
  else c.

Fixpoint sanitize_filename (s : string) : string :=
  match s with
  | EmptyString => EmptyString
  | String c s' => String (filename_byte c) (sanitize_filename s')
  end.

(** [s[strlen(s) - 1] == '/']. *)
Definition ends_with_slash (s : string) : bool :=
  match String.get (String.length s - 1) s with
  | Some c => Ascii.eqb c "/"
  | None => false
  end.

(** Overwrites the last three bytes with [mp3]; the C code is defined for
    strings of three bytes or more. *)
Definition to_mp3 (s : string) : string :=
  String.substring 0 (String.length s - 3) s ++ "mp3".

Definition quoted (s : string) : string := dq ++ s ++ dq.

End Tags.
Export Tags.

(** ** [openStream] *)

(** The answers one call of [openStream] gets. *)
Record open_script := mkOpenScript {
  os_async : list async;           (* while the demuxer opens the input *)
  os_open_input : Z;               (* avformat_open_input *)
  os_find_stream_info : Z;         (* avformat_find_stream_info *)
  os_best_stream : Z;              (* av_find_best_stream *)
  os_stream : AVStream;            (* fctx->streams[streamIdx] *)
  os_codec_time_base0 : AVRational;(* fctx->streams[0]->codec->time_base *)
  os_alloc_context3 : ptr;         (* avcodec_alloc_context3 *)
  os_parameters_to_context : Z;    (* avcodec_parameters_to_context *)
  os_find_decoder : ptr;           (* avcodec_find_decoder *)
  os_codec_open2 : Z;              (* avcodec_open2 *)
  os_save_path_exists : bool;      (* stat(save_path) != -1 *)
  os_tmp_dir_exists : bool;        (* stat("/tmp/pianobar") != -1 *)
  os_target_exists : bool;         (* access(save_complete, F_OK) != -1 *)
  os_avio_open2 : Z;               (* avio_open2 *)
  os_ost_id : Z;                   (* the id of the new output stream *)
  os_write_header : Z              (* avformat_write_header *)
}.

(** The [softfail] macro: [printError] and [return false]. *)
Definition softfail (msg : string) (player : player_t) (ev : list event)
  : bool * player_t * list event :=
  (false, player, ev ++ [EvMsg msg]).

(** Lines 205-334: the save path, the cover and the tee muxer.  The two
    [sprintf] into [save_path] are taken as the concatenation they are
    meant to produce. *)
Definition openStream_save (os : open_script) (player : player_t)
  : player_t * list event :=
  let p := set_save_file
             (match save_dir (settings player) with
              | None => false | Some _ => true end) player in
  let '(p, ev) :=
    match save_dir (settings p) with
    | None => (p, [])
    | Some dir =>
        let save_path :=
          (if ends_with_slash dir then dir else dir ++ "/")%string in
        let artist' := escape_tag (artist p) in
        let album' := escape_tag (album p) in
        let save_path := (save_path ++ artist' ++ "/" ++ album' ++ "/")%string in
        let ev1 :=
          if os_save_path_exists os then []
          else [EvSystem ("mkdir -p " ++ quoted save_path)%string] in
        let save_filename := sanitize_filename (title p ++ ".aac")%string in
        let ev2 :=
          if os_tmp_dir_exists os then []
          else [EvMkdir "/tmp/pianobar"%string] in
        let tmp := ("/tmp/pianobar/" ++ save_filename)%string in
        let p := set_tmp_filename tmp p in
        let jpgpath := (save_path ++ "/cover.jpg")%string in
        let ev3 := [EvCurlPerform (album_art p) jpgpath] in
        let save_complete' := to_mp3 (save_path ++ save_filename)%string in
        let p := set_save_complete save_complete' p in
        let p := set_save_file (negb (os_target_exists os)) p in
        (p, ev1 ++ ev2 ++ ev3)
    end in
  if save_file p then
    let tmp := tmp_filename p in
    let ev4 := [EvGuessFormat tmp; EvAvioOpen tmp (os_avio_open2 os);
                EvNewStream; EvWriteHeader (os_write_header os)] in
    (set_ofcx (Some (mkMuxer tmp (os_ost_id os) (time_base (st p)))) p,
     ev ++ ev4)
  else
    (* [ofcx] and [ost] are copied from locals that were never set *)
    (set_ofcx None p, ev).

Definition openStream (os : open_script) (player : player_t)
  : bool * player_t * list event :=
  let p := set_fctx Open player in
  let p := run_async (os_async os) p in
  let ev := [EvOpenInput (url p)] in
  if os_open_input os <? 0 then
    (* the library frees the context it was given *)
    softfail "Unable to open audio file" (set_fctx NULL p) ev
  else
  let ev := ev ++ [EvFindStreamInfo] in
  if os_find_stream_info os <? 0 then softfail "find_stream_info" p ev else
  let p := set_streamIdx (os_best_stream os) p in
  let ev := ev ++ [EvFindBestStream] in
  if streamIdx p <? 0 then softfail "find_best_stream" p ev else
  let p := set_st (os_stream os) p in
  let p := set_codec_time_base0 (os_codec_time_base0 os) p in
  let p := set_cctx (os_alloc_context3 os) p in
  match cctx p with
  | NULL => softfail "avcodec_alloc_context3" p ev
  | Open =>
  if os_parameters_to_context os <? 0 then
    softfail "avcodec_parameters_to_context" p ev
  else
  match os_find_decoder os with
  | NULL => softfail "find_decoder" p ev
  | Open =>
  if os_codec_open2 os <? 0 then softfail "codec_open2" p ev else
  let ev :=
    if 0 <? lastTimestamp p
    then ev ++ [EvSeekFrame (streamIdx p) (lastTimestamp p)]
    else ev in
  let p := set_songPlayed 0 p in
  let p := set_songDuration
             (av_q2d (time_base (st p)) * inject_Z (duration (st p)))%Q p in
  let '(p, ev') := openStream_save os p in
  (true, p, ev ++ ev')
  end end.

(** ** [openFilter], [openDevice], [BarPlayerSetVolume] *)

Record filter_script := mkFilterScript {
  fs_graph_alloc : ptr;
  fs_abuffer : Z;
  fs_volume : Z;
  fs_aformat : Z;
  fs_abuffersink : Z;
  fs_link1 : Z;
  fs_link2 : Z;
  fs_link3 : Z;
  fs_graph_config : Z
}.

Definition openFilter (fs : filter_script) (player : player_t)
  : bool * player_t * list event :=
  let p := set_fgraph (fs_graph_alloc fs) player in
  let ev := [EvGraphAlloc] in
  match fgraph p with
  | NULL => softfail "graph_alloc" p ev
  | Open =>
  if fs_abuffer fs <? 0 then softfail "create_filter abuffer" p ev else
  if fs_volume fs <? 0 then softfail "create_filter volume" p ev else
  if fs_aformat fs <? 0 then softfail "create_filter aformat" p ev else
  if fs_abuffersink fs <? 0 then softfail "create_filter abuffersink" p ev else
  if negb (fs_link1 fs =? 0) || negb (fs_link2 fs =? 0)
     || negb (fs_link3 fs =? 0)
  then softfail "filter_link" p ev else
  if fs_graph_config fs <? 0 then softfail "graph_config" p ev else
  (true, p, ev)
  end.

Definition openDevice (dev : ptr) (player : player_t)
  : bool * player_t * list event :=
  let p := set_aoDev dev player in
  match aoDev p with
  | NULL => (false, p, [EvAoOpenLive; EvMsg "Cannot open audio device."])
  | Open => (true, p, [EvAoOpenLive])
  end.

Definition BarPlayerSetVolume (ret : Z) (player : player_t) : list event :=
  match mode player with
  | PLAYER_PLAYING =>
      let dB := (inject_Z (volume (settings player))
                 + gain player * gainMul (settings player))%Q in
      EvSendCommandVolume dB ::
        (if ret <? 0 then [EvMsg "Cannot set volume"] else [])
  | _ => []
  end.

(** ** [play] *)

Inductive drain_mode := FILL | DRAIN | DONE.

(** A filtered frame the sink hands out. *)
Record filtered_frame := mkFiltered {
  nb_samples : Z;
  numChannels : Z;
  bps : Z
}.

(** One call of [avcodec_receive_frame] and, when it yields a frame, the
    filtered frames [av_buffersink_get_frame] hands out before it answers
    a negative code. *)
Record recv_script := mkRecv {
  rc_async : list async;
  rc_ret : Z;
  rc_pts : Z;
  rc_filtered : list filtered_frame
}.

(** One turn of the outer loop: the answer of [av_read_frame] (consulted
    in [FILL] mode only), i.e. its return code and the packet it leaves in
    [pkt], and the answers of the decoder. *)
Record iter_script := mkIter {
  it_async : list async;
  it_read_ret : Z;
  it_read_pkt : AVPacket;
  it_recv : list recv_script
}.

(** The locals of [play] that live across turns, with the player. *)
Record play_st := mkPlaySt {
  ps_player : player_t;
  ps_pkt : AVPacket;
  ps_drainMode : drain_mode;
  ps_ret : Z
}.

Inductive flow := Fall | Continue | Break.

(** The [if (drainMode == FILL)] block. *)
Definition fill_step (it : iter_script) (s : play_st)
  : flow * play_st * list event :=
  let p := run_async (it_async it) (ps_player s) in
  let ret := it_read_ret it in
  let pkt := it_read_pkt it in
  let rd := EvReadFrame ret pkt in
  if ret =? AVERROR_EOF then
    (Fall, mkPlaySt p pkt DRAIN ret, [rd; EvSendPacket None])
  else if negb (stream_index pkt =? streamIdx p) then
    (Continue, mkPlaySt p blank_packet FILL ret, [rd; EvPacketUnref pkt])
  else if ret <? 0 then
    (Break, mkPlaySt p pkt FILL ret, [rd])
  else
    (Fall, mkPlaySt p pkt FILL ret, [rd; EvSendPacket (Some pkt)]).

(** [pkt_write] after the three assignments of the tee block.  The block
    is reached with [ofcx] set whenever [save_file] holds. *)
Definition tee_packet (player : player_t) (pkt : AVPacket) : AVPacket :=
  match ofcx player with
  | Some m =>
      mkPacket (ost_id m)
        (av_rescale_q (pts pkt) (codec_time_base0 player) (ost_time_base m))
        (av_rescale_q (dts pkt) (codec_time_base0 player) (ost_time_base m))
        (payload pkt)
  | None => pkt
  end.

Definition ao_bytes (f : filtered_frame) : Z :=
  nb_samples f * numChannels f * bps f.

(** The [while (!player->doQuit)] loop around [avcodec_receive_frame].
    [av_buffersrc_write_frame] is asserted to succeed and answers 0. *)
Fixpoint receive_loop (rs : list recv_script) (player : player_t)
    (drainMode : drain_mode) (ret : Z)
  : player_t * drain_mode * Z * list event :=
  if doQuit player then (player, drainMode, ret, [])
  else
    match rs with
    | [] => (player, DONE, AVERROR_EOF, [EvReceiveFrame AVERROR_EOF])
    | r :: rs' =>
        let p := run_async (rc_async r) player in
        let ret := rc_ret r in
        if ret =? AVERROR_EOF then (p, DONE, ret, [EvReceiveFrame ret])
        else if negb (ret =? 0) then (p, drainMode, ret, [EvReceiveFrame ret])
        else
          let frame_pts :=
            if rc_pts r =? AV_NOPTS_VALUE then 0 else rc_pts r in
          let ret := 0 in
          let ev := [EvReceiveFrame 0; EvBuffersrcWriteFrame frame_pts]
                    ++ map (fun f => EvAoPlay (ao_bytes f)) (rc_filtered r) in
          let '(p', m', ret', ev') := receive_loop rs' p drainMode ret in
          (p', m', ret', ev ++ ev')
    end.

(** The turn after the [FILL] block: tee, pause gate, decoder loop,
    timestamps, release of the packet.  The pause gate leaves once the
    control thread has cleared [doPause]. *)
Definition turn_body (rs : list recv_script) (s : play_st)
  : play_st * list event :=
  let pkt := ps_pkt s in
  let p := set_pkt_write pkt (ps_player s) in
  let ev_tee :=
    if save_file p then [EvWriteFrame (tee_packet p pkt)] else [] in
  let '(p, ev_pause) :=
    if doPause p
    then (set_doPause false p, [EvReadPause; EvCondWait; EvReadPlay])
    else (p, []) in
  let '(p, m, ret, ev_recv) :=
    receive_loop rs p (ps_drainMode s) (ps_ret s) in
  let p := set_songPlayed
             (av_q2d (time_base (st p)) * inject_Z (pts pkt))%Q p in
  let p := set_lastTimestamp (pts pkt) p in
  (mkPlaySt p blank_packet m ret,
   ev_tee ++ ev_pause ++ ev_recv ++ [EvPacketUnref pkt]).

(** One turn of [while (!player->doQuit && drainMode != DONE)]; the
    boolean tells whether the turn left the loop with [break]. *)
Definition play_turn (it : iter_script) (s : play_st)
  : bool * play_st * list event :=
  let '(fl, s1, ev1) :=
    match ps_drainMode s with
    | FILL => fill_step it s
    | _ => (Fall, s, [])
    end in
  match fl with
  | Fall => let '(s2, ev2) := turn_body (it_recv it) s1 in
            (false, s2, ev1 ++ ev2)
  | Continue => (false, s1, ev1)
  | Break => (true, s1, ev1)
  end.

(** The turn an exhausted script gives: end of file everywhere. *)
Definition eof_iter : iter_script := mkIter [] AVERROR_EOF blank_packet [].

Definition loop_guard (s : play_st) : bool :=
  negb (doQuit (ps_player s))
  && match ps_drainMode s with DONE => false | _ => true end.

(** The outer loop; the trace is kept turn by turn. *)
Fixpoint play_loop (its : list iter_script) (s : play_st)
  : play_st * list (list event) :=
  if loop_guard s then
    match its with
    | [] => let '(_, s', ev) := play_turn eof_iter s in (s', [ev])
    | it :: its' =>
        let '(brk, s', ev) := play_turn it s in
        if brk then (s', [ev])
        else let '(s'', evs) := play_loop its' s' in (s'', ev :: evs)
    end
  else (s, []).

Definition play (its : list iter_script) (player : player_t)
  : Z * player_t * list (list event) :=
  let '(s, turns) := play_loop its (mkPlaySt player blank_packet FILL 0) in
  (ps_ret s, ps_player s, turns).

(** ** [BarPlayerThread] *)

Record cycle_script := mkCycle {
  cs_open : open_script;
  cs_filter : filter_script;
  cs_device : ptr;               (* ao_open_live *)
  cs_volume : Z;                 (* avfilter_graph_send_command *)
  cs_play : list iter_script
}.

(** What one turn of the [do ... while (retry)] loop leaves: the locals
    [retry] and [pret], the player after [finish], the calls made, and for
    the statements below whether [openStream] succeeded and, if [play] was
    called, what it returned and the player as it left it. *)
Record attempt_result := mkAttempt {
  at_retry : bool;
  at_pret : player_ret;
  at_player : player_t;
  at_opened : bool;
  at_played : option (Z * player_t);
  at_events : list event
}.

Definition attempt (c : cycle_script) (pret : player_ret)
    (player : player_t) : attempt_result :=
  let '(ok, p, ev) := openStream (cs_open c) player in
  let '(retry, pret, p, played, ev) :=
    if ok then
      let '(okf, p, evf) := openFilter (cs_filter c) p in
      let '(okd, p, evd) :=
        if okf then openDevice (cs_device c) p else (false, p, []) in
      if okf && okd then
        let p := set_mode PLAYER_PLAYING p in
        let evv := BarPlayerSetVolume (cs_volume c) p in
        let '(r, p, turns) := play (cs_play c) p in
        ((r =? AVERROR_INVALIDDATA) && (interrupted p =? 0), pret, p,
         Some (r, p), ev ++ evf ++ evd ++ evv ++ List.concat turns)
      else
        (* filter missing or audio device busy *)
        (false, PLAYER_RET_HARDFAIL, p, None, ev ++ evf ++ evd)
    else
      (* stream not found *)
      (false, PLAYER_RET_SOFTFAIL, p, None, ev) in
  let p := set_mode PLAYER_WAITING p in
  let '(p, evfin) := finish p in
  mkAttempt retry pret p ok played (ev ++ evfin).

(** The retry loop.  Each turn uses up one cycle of the script; [None]
    when the script has fewer cycles than the worker asks for. *)
Fixpoint retry_loop (cs : list cycle_script) (pret : player_ret)
    (player : player_t) : option (player_ret * player_t * list event) :=
  match cs with
  | [] => None
  | c :: cs' =>
      let a := attempt c pret player in
      if at_retry a then
        match retry_loop cs' (at_pret a) (at_player a) with
        | Some (r, p, ev) => Some (r, p, at_events a ++ ev)
        | None => None
        end
      else Some (at_pret a, at_player a, at_events a)
  end.

(** The block after the loop: trailer, and the two shell commands.  The
    escaped copy of the title is computed and then not used: the command
    takes [player->title]. *)
Definition post_save (player : player_t) : list event :=
  let tmpmp3 := to_mp3 (tmp_filename player) in
  let artist' := escape_tag (artist player) in
  let album' := escape_tag (album player) in
  let title' := escape_tag (title player) in
  [EvWriteTrailer; EvFreeContext; EvAvioClose;
   EvSystem ("ffmpeg -i " ++ quoted (tmp_filename player)
             ++ " -c:a libmp3lame -ac 2 -q:a 2 " ++ quoted tmpmp3)%string;
   EvSystem ("lame  --vbr-new --preset standard --tt "
             ++ quoted (title player) ++ " --ta " ++ quoted artist'
             ++ " --tl " ++ quoted album' ++ " --add-id3v2 "
             ++ quoted tmpmp3 ++ " " ++ quoted (save_complete player))%string].

Definition BarPlayerThread (cs : list cycle_script) (player : player_t)
  : option (player_ret * player_t * list event) :=
  match retry_loop cs PLAYER_RET_OK player with
  | None => None
  | Some (pret, p, ev) =>
      let p := set_mode PLAYER_FINISHED p in
      let ev_post :=
        if save_file p && negb (doQuit p) then post_save p else [] in
      Some (pret, p, ev ++ ev_post)
  end.

(** The turns of the retry loop a run makes, in order. *)
Fixpoint attempts (cs : list cycle_script) (pret : player_ret)
    (player : player_t) : list attempt_result :=
  match cs with
  | [] => []
  | c :: cs' =>
      let a := attempt c pret player in
      a :: (if at_retry a then attempts cs' (at_pret a) (at_player a)
            else [])
  end.

(** ** Reading traces *)

(** Calls that belong to playback proper. *)
Definition is_playback (e : event) : bool :=
  match e with
  | EvReadFrame _ _ | EvSendPacket _ | EvReceiveFrame _
  | EvBuffersrcWriteFrame _ | EvAoPlay _ | EvWriteFrame _ => true
  | _ => false
  end.

(** The external transcode: the [ffmpeg] and [lame] commands. *)
Definition is_transcode (e : event) : bool :=
  match e with
  | EvSystem cmd => String.prefix "ffmpeg " cmd || String.prefix "lame " cmd
  | _ => false
  end.

Definition is_trailer (e : event) : bool :=
  match e with EvWriteTrailer => true | _ => false end.

(** Packets handed to the decoder, packets written to the muxer, packets
    [av_read_frame] delivered with a non-negative code. *)
Definition sent_packets (tr : list event) : list AVPacket :=
  flat_map (fun e => match e with EvSendPacket (Some k) => [k] | _ => [] end) tr.

Definition muxer_writes (tr : list event) : list AVPacket :=
  flat_map (fun e => match e with EvWriteFrame k => [k] | _ => [] end) tr.

Definition read_packets (tr : list event) : list AVPacket :=
  flat_map (fun e => match e with
                     | EvReadFrame ret k => if 0 <=? ret then [k] else []
                     | _ => [] end) tr.

(** The part of the player that [play] and the environment never write:
    the stream selection and the tee muxer set-up. *)
Definition static (p : player_t)
  : bool * option muxer * AVRational * Z * AVStream :=
  (save_file p, ofcx p, codec_time_base0 p, streamIdx p, st p).



(** The caller's inputs, which neither the worker nor the environment
    writes. *)
Definition inputs (p : player_t) :=
  (url p, artist p, album p, title p, album_art p, settings p, gain p).




(** Neither the trailer nor a transcode command. *)
Definition plain (e : event) : Prop :=
  is_trailer e = false /\ is_transcode e = false.

Definition no_playback (tr : list event) : Prop :=
  Forall (fun e => is_playback e = false) tr.

(** What [escape_tag] writes for one byte. *)
Definition escape_byte (c : ascii) : string :=
  if Ascii.eqb c dquote then String backslash (String c EmptyString)
  else if Ascii.eqb c "/" then " "%string
  else String c EmptyString.

(** Calls of the decoder loop: no read, no send, no muxer write. *)
Definition decoder_side (e : event) : Prop :=
  match e with
  | EvReceiveFrame _ | EvBuffersrcWriteFrame _ | EvAoPlay _ => True
  | _ => False
  end.

(** The packets of the selected stream. *)
Definition selected (player : player_t) (k : AVPacket) : bool :=
  stream_index k =? streamIdx player.

(** The packets one turn hands to the decoder are the packets of the
    selected stream it read; and with saving on, a turn that hands a
    packet to the decoder hands over just that one and writes just its
    copy to the muxer. *)
Definition turn_accounts (player : player_t) (ev : list event) : Prop :=
  sent_packets ev = filter (selected player) (read_packets ev) /\
  (save_file player = true ->
   forall k, In k (sent_packets ev) ->
     sent_packets ev = [k] /\ muxer_writes ev = [tee_packet player k]).

(** ** Sample sessions *)

Module Sample.

Definition tb : AVRational := mkRational 1 44100.

Definition player0 : player_t :=
  mkPlayer "http://host/song" "AC/DC" "Back in Black" "Money$"
    "http://host/art.jpg" (mkSettings None 0 1%Q) 0%Q PLAYER_WAITING
    false false 0 NULL tb NULL NULL NULL 0 (mkStream tb 0) 0 0%Q 0%Q
    false None "" "" blank_packet.

(** The same song with a save directory configured. *)
Definition player_save : player_t :=
  mkPlayer "http://host/song" "AC/DC" "Back in Black" "Money$"
    "http://host/art.jpg" (mkSettings (Some "/out"%string) 0 1%Q) 0%Q
    PLAYER_WAITING false false 0 NULL tb NULL NULL NULL 0 (mkStream tb 0)
    0 0%Q 0%Q false None "" "" blank_packet.

(** Every step of the opener succeeds; nothing exists on disk yet. *)
Definition os_ok : open_script :=
  mkOpenScript [] 0 0 0 (mkStream tb 441000) tb Open 0 Open 0
    false false false 0 0 0.


Definition os_no_input : open_script :=
  mkOpenScript [] (-5) 0 0 (mkStream tb 441000) tb Open 0 Open 0
    false false false 0 0 0.

Definition fs_ok : filter_script := mkFilterScript Open 0 0 0 0 0 0 0 0.

Definition pk (n : nat) (t : Z) : AVPacket := mkPacket 0 t t (Some n).

Definition again : recv_script := mkRecv [] AVERROR_EAGAIN 0 [].
Definition frame (t : Z) : recv_script :=
  mkRecv [] 0 t [mkFiltered 1024 2 2].

(** One packet, one frame. *)
Definition turn_ok (n : nat) (t : Z) : iter_script :=
  mkIter [] 0 (pk n t) [frame t; again].


(** A network read error after playback has started. *)
Definition turn_io_error : iter_script :=
  mkIter [] (-5) blank_packet [].

(** End of file: the demuxer leaves the packet blank, the flushed
    decoder has nothing to give. *)
Definition turn_eof : iter_script :=
  mkIter [] AVERROR_EOF blank_packet [mkRecv [] AVERROR_EOF 0 []].

(** A stream that ends before it delivers a packet. *)
Definition c_empty : cycle_script := mkCycle os_ok fs_ok Open 0 [turn_eof].

(** One packet, then the end of the stream. *)
Definition c_song : cycle_script :=
  mkCycle os_ok fs_ok Open 0 [turn_ok 1 1024; turn_eof].

(** A title with a double quote in it. *)
Definition quote_title : string := ("a" ++ dq ++ "b")%string.

Definition player_quote : player_t :=
  mkPlayer "http://host/song" "AC/DC" "Back in Black" quote_title
    "http://host/art.jpg" (mkSettings (Some "/out"%string) 0 1%Q) 0%Q
    PLAYER_WAITING false false 0 NULL tb NULL NULL NULL 0 (mkStream tb 0)
    0 0%Q 0%Q false None "" "" blank_packet.

Definition c_one_packet : cycle_script :=
  mkCycle os_ok fs_ok Open 0 [turn_ok 1 1024].


Definition c_io_error : cycle_script :=
  mkCycle os_ok fs_ok Open 0 [turn_ok 1 1024; turn_io_error].

(** [player_save] once stream, filter and device are up. *)
Definition player_playing : player_t :=
  set_mode PLAYER_PLAYING
    (set_aoDev Open (set_fgraph Open (snd (fst (openStream os_ok player_save))))).

End Sample.

(** ** Further statements about tags, paths and traces *)

(** The bytes of a string satisfy [f]. *)
Definition all_bytes (f : ascii -> bool) (s : string) : bool :=
  forallb f (list_ascii_of_string s).

Definition count_byte (c : ascii) (s : string) : nat :=
  List.length (filter (Ascii.eqb c) (list_ascii_of_string s)).

(** Every double quote comes right after a backslash; [prev] tells
    whether the byte before was a backslash. *)
Fixpoint quotes_escaped_from (prev : bool) (s : string) : bool :=
  match s with
  | EmptyString => true
  | String c s' =>
      (if Ascii.eqb c dquote then prev else true)
      && quotes_escaped_from (Ascii.eqb c backslash) s'
  end.

Definition quotes_escaped (s : string) : bool := quotes_escaped_from false s.

(** Lines 222-226: the save directory with one slash at its end. *)
Definition with_slash (dir : string) : string :=
  (if ends_with_slash dir then dir else dir ++ "/")%string.

(** The directory of lines 222-257 for a player and a save directory. *)
Definition album_dir (player : player_t) (dir : string) : string :=
  (with_slash dir ++ escape_tag (artist player) ++ "/"
   ++ escape_tag (album player) ++ "/")%string.

(** The seven checks of [openStream], lines 155-194. *)
Definition bring_up_ok (os : open_script) : bool :=
  negb (os_open_input os <? 0)
  && negb (os_find_stream_info os <? 0)
  && negb (os_best_stream os <? 0)
  && is_open (os_alloc_context3 os)
  && negb (os_parameters_to_context os <? 0)
  && is_open (os_find_decoder os)
  && negb (os_codec_open2 os <? 0).

(** The player as lines 150-203 leave it when every check passes. *)
Definition opened (os : open_script) (player : player_t) : player_t :=
  let p := run_async (os_async os) (set_fctx Open player) in
  let p := set_streamIdx (os_best_stream os) p in
  let p := set_st (os_stream os) p in
  let p := set_codec_time_base0 (os_codec_time_base0 os) p in
  let p := set_cctx Open p in
  let p := set_songPlayed 0 p in
  set_songDuration
    (av_q2d (time_base (st p)) * inject_Z (duration (st p)))%Q p.

(** The fields a failing [openStream] does not reach. *)
Definition kept (p : player_t) :=
  (save_file p, ofcx p, tmp_filename p, save_complete p, songPlayed p,
   songDuration p, lastTimestamp p, pkt_write p, mode p).

Definition is_probe (e : event) : bool :=
  match e with
  | EvOpenInput _ | EvFindStreamInfo | EvFindBestStream => true
  | _ => false
  end.

Definition is_seek (e : event) : bool :=
  match e with EvSeekFrame _ _ => true | _ => false end.



(** The calls of lines 150-199 when every check passes. *)
Definition open_calls (os : open_script) (player : player_t) : list event :=
  [EvOpenInput (url player); EvFindStreamInfo; EvFindBestStream]
  ++ (if 0 <? lastTimestamp player
      then [EvSeekFrame (os_best_stream os) (lastTimestamp player)]
      else []).

(** The fields the save path of [openStream] does not write. *)
Definition frame (p : player_t) :=
  (songPlayed p, songDuration p, st p, streamIdx p, codec_time_base0 p,
   fctx p, cctx p, fgraph p, aoDev p, lastTimestamp p, inputs p,
   doQuit p, doPause p, interrupted p, mode p, pkt_write p).

(** The four calls that set the tee muxer up, lines 319-330. *)
Definition muxer_setup_calls (os : open_script) (tmp : string) : list event :=
  [EvGuessFormat tmp; EvAvioOpen tmp (os_avio_open2 os); EvNewStream;
   EvWriteHeader (os_write_header os)].

(** Everything but the three flags the control thread and the interrupt
    callback write. *)
Definition beyond_async (p : player_t) :=
  (inputs p, mode p, fctx p, codec_time_base0 p, cctx p, fgraph p, aoDev p,
   streamIdx p, st p, lastTimestamp p, songPlayed p, songDuration p,
   save_file p, ofcx p, tmp_filename p, save_complete p, pkt_write p).






(** The checks of [openFilter], lines 347-399. *)
Definition filter_ok (fs : filter_script) : bool :=
  is_open (fs_graph_alloc fs)
  && negb (fs_abuffer fs <? 0)
  && negb (fs_volume fs <? 0)
  && negb (fs_aformat fs <? 0)
  && negb (fs_abuffersink fs <? 0)
  && (fs_link1 fs =? 0) && (fs_link2 fs =? 0) && (fs_link3 fs =? 0)
  && negb (fs_graph_config fs <? 0).

(** What the answers of one cycle make of the worker's result: the
    result as lines 568-581 leave it when it was [PLAYER_RET_OK]. *)
Definition cycle_outcome (c : cycle_script) : player_ret :=
  if bring_up_ok (cs_open c) then
    if filter_ok (cs_filter c) && is_open (cs_device c)
    then PLAYER_RET_OK else PLAYER_RET_HARDFAIL
  else PLAYER_RET_SOFTFAIL.

Definition is_volume (e : event) : bool :=
  match e with EvSendCommandVolume _ => true | _ => false end.

Definition is_device_open (e : event) : bool :=
  match e with EvAoOpenLive => true | _ => false end.


(** Everything [play] leaves alone: all of the player but [songPlayed],
    [lastTimestamp], [pkt_write], the pause flag and the two flags the
    interrupt callback writes. *)
Definition play_frame (p : player_t) :=
  (inputs p, mode p, fctx p, codec_time_base0 p, cctx p, fgraph p, aoDev p,
   streamIdx p, st p, songDuration p, save_file p, ofcx p, tmp_filename p,
   save_complete p).

(** The calls [openStream] can make, and the calls [play] can make. *)
Definition is_open_call (e : event) : bool :=
  match e with
  | EvOpenInput _ | EvFindStreamInfo | EvFindBestStream | EvSeekFrame _ _
  | EvSystem _ | EvMkdir _ | EvCurlPerform _ _ | EvGuessFormat _
  | EvAvioOpen _ _ | EvNewStream | EvWriteHeader _ | EvMsg _ => true
  | _ => false
  end.

Definition is_play_call (e : event) : bool :=
  match e with
  | EvReadFrame _ _ | EvSendPacket _ | EvPacketUnref _ | EvWriteFrame _
  | EvReadPause | EvCondWait | EvReadPlay | EvReceiveFrame _
  | EvBuffersrcWriteFrame _ | EvAoPlay _ => true
  | _ => false
  end.

(** * Properties *)

(** ** The interrupt callback *)

(** C2.  The blocking-abort hook on the three values of the counter:
    0 keeps blocking (returns 0, nothing changes); 1 aborts (returns 1) and
    resets the counter to 0; 2 or more sets [doQuit] and aborts. *)
Theorem intCb_three_cases (player : player_t) :
  (interrupted player = 0 -> intCb player = (0, player)) /\
  (interrupted player = 1 ->
     intCb player = (1, set_interrupted 0 player)) /\
  (2 <= interrupted player ->
     intCb player = (1, set_doQuit true player)).
Proof.
  unfold intCb. repeat split; intros H.
  - rewrite H. reflexivity.
  - rewrite H. reflexivity.
  - destruct (Z.ltb_spec 1 (interrupted player)); [reflexivity | lia].
Qed.

Lemma intCb_three_cases_witness :
  intCb (set_interrupted 0 Sample.player0)
    = (0, set_interrupted 0 Sample.player0) /\
  interrupted (snd (intCb (set_interrupted 1 Sample.player0))) = 0 /\
  doQuit (snd (intCb (set_interrupted 2 Sample.player0))) = true.
Proof.
  split; [| split].
  - apply (proj1 (intCb_three_cases (set_interrupted 0 Sample.player0))).
    reflexivity.
  - rewrite (proj1 (proj2 (intCb_three_cases
                             (set_interrupted 1 Sample.player0)))
               eq_refl).
    reflexivity.
  - rewrite (proj2 (proj2 (intCb_three_cases
                             (set_interrupted 2 Sample.player0)))).
    + reflexivity.
    + simpl. lia.
Defined.

(** ** [finish] *)

Lemma finish_closed (player : player_t) :
  let p' := fst (finish player) in
  aoDev p' = NULL /\ fgraph p' = NULL /\ cctx p' = NULL /\ fctx p' = NULL.
Proof.
  destruct player as [u a al t aa s g m q pa i fc ctb cc fg ao si stm lt sp sd
                        sf o tf sc pw].
  destruct fc, cc, fg; cbn; auto.
Qed.

(** C7.  [finish] releases output device, filter graph, decoder and
    demuxer in that order, whichever of them are open; every one of the
    four is null afterwards; a second call releases nothing and leaves the
    player as the first call left it. *)
Theorem finish_order_total_idempotent (player : player_t) :
  let p' := fst (finish player) in
  released (snd (finish player)) = held player /\
  released (snd (finish (set_fctx Open (set_cctx Open (set_fgraph Open
                           (set_aoDev Open player))))))
    = [OutputDevice; FilterGraph; Decoder; Demuxer] /\
  (exists rest, snd (finish player) = EvAoClose (aoDev player) :: rest) /\
  held p' = [] /\
  (aoDev p' = NULL /\ fgraph p' = NULL /\ cctx p' = NULL /\ fctx p' = NULL) /\
  finish p' = (p', [EvAoClose NULL]) /\
  released (snd (finish p')) = [].
Proof.
  destruct player as [u a al t aa s g m q pa i fc ctb cc fg ao si stm lt sp sd
                        sf o tf sc pw].
  destruct fc, cc, fg, ao; vm_compute; repeat split; eauto.
Qed.

(** ** What playback leaves alone *)

Lemma async_step_static p a : static (async_step p a) = static p.
Proof.
  destruct a; simpl; try reflexivity.
  unfold intCb.
  destruct (1 <? interrupted p); [reflexivity |].
  destruct (negb (interrupted p =? 0)); reflexivity.
Qed.

Lemma run_async_static l : forall p, static (run_async l p) = static p.
Proof.
  unfold run_async.
  induction l as [| a l IH]; intros p; simpl; [reflexivity |].
  rewrite IH. apply async_step_static.
Qed.

Lemma async_step_doQuit p a :
  doQuit p = true -> doQuit (async_step p a) = true.
Proof.
  intros H. destruct a; simpl; auto.
  unfold intCb.
  destruct (1 <? interrupted p); [reflexivity |].
  destruct (negb (interrupted p =? 0)); simpl; assumption.
Qed.

Lemma run_async_doQuit l : forall p,
  doQuit p = true -> doQuit (run_async l p) = true.
Proof.
  unfold run_async.
  induction l as [| a l IH]; intros p H; simpl; [assumption |].
  apply IH. apply async_step_doQuit. assumption.
Qed.

Lemma receive_loop_static rs : forall p m r p' m' r' ev,
  receive_loop rs p m r = (p', m', r', ev) -> static p' = static p.
Proof.
  induction rs as [| x rs IH]; intros p m r p' m' r' ev; simpl.
  - destruct (doQuit p); intros H; inversion H; reflexivity.
  - destruct (doQuit p); [intros H; inversion H; reflexivity |].
    destruct (rc_ret x =? AVERROR_EOF).
    { intros H; inversion H; subst. apply run_async_static. }
    destruct (negb (rc_ret x =? 0)).
    { intros H; inversion H; subst. apply run_async_static. }
    destruct (receive_loop rs (run_async (rc_async x) p) m 0)
      as [[[p1 m1] r1] e1] eqn:E.
    intros H; inversion H; subst.
    rewrite (IH _ _ _ _ _ _ _ E). apply run_async_static.
Qed.

Lemma receive_loop_doQuit rs : forall p m r p' m' r' ev,
  receive_loop rs p m r = (p', m', r', ev) ->
  doQuit p = true -> doQuit p' = true.
Proof.
  intros p m r p' m' r' ev H Q.
  destruct rs; simpl in H; rewrite Q in H; inversion H; subst; exact Q.
Qed.

Lemma turn_body_static rs s s' ev :
  turn_body rs s = (s', ev) -> static (ps_player s') = static (ps_player s).
Proof.
  unfold turn_body.
  set (p0 := set_pkt_write (ps_pkt s) (ps_player s)).
  destruct (doPause p0);
    match goal with
    | |- context [receive_loop rs ?q ?m ?r] =>
        destruct (receive_loop rs q m r) as [[[p1 m1] r1] e1] eqn:E
    end;
    intros H; inversion H; subst; simpl;
    apply receive_loop_static in E; unfold static in *; simpl in *;
    inversion E; reflexivity.
Qed.

Lemma turn_body_doQuit rs s s' ev :
  turn_body rs s = (s', ev) ->
  doQuit (ps_player s) = true -> doQuit (ps_player s') = true.
Proof.
  unfold turn_body.
  set (p0 := set_pkt_write (ps_pkt s) (ps_player s)).
  destruct (doPause p0);
    match goal with
    | |- context [receive_loop rs ?q ?m ?r] =>
        destruct (receive_loop rs q m r) as [[[p1 m1] r1] e1] eqn:E
    end;
    intros H Q; inversion H; subst; simpl;
    apply receive_loop_doQuit in E; auto.
Qed.

Lemma fill_step_static it s fl s' ev :
  fill_step it s = (fl, s', ev) ->
  static (ps_player s') = static (ps_player s).
Proof.
  unfold fill_step.
  destruct (it_read_ret it =? AVERROR_EOF);
    [| destruct (negb (stream_index (it_read_pkt it)
                       =? streamIdx (run_async (it_async it) (ps_player s))));
       [| destruct (it_read_ret it <? 0)]];
    intros H; inversion H; subst; simpl; apply run_async_static.
Qed.

Lemma fill_step_doQuit it s fl s' ev :
  fill_step it s = (fl, s', ev) ->
  doQuit (ps_player s) = true -> doQuit (ps_player s') = true.
Proof.
  unfold fill_step.
  destruct (it_read_ret it =? AVERROR_EOF);
    [| destruct (negb (stream_index (it_read_pkt it)
                       =? streamIdx (run_async (it_async it) (ps_player s))));
       [| destruct (it_read_ret it <? 0)]];
    intros H Q; inversion H; subst; simpl; apply run_async_doQuit; exact Q.
Qed.

Lemma play_turn_static it s b s' ev :
  play_turn it s = (b, s', ev) ->
  static (ps_player s') = static (ps_player s).
Proof.
  unfold play_turn.
  destruct (ps_drainMode s).
  - destruct (fill_step it s) as [[fl s1] e1] eqn:F.
    apply fill_step_static in F.
    destruct fl.
    + destruct (turn_body (it_recv it) s1) as [s2 e2] eqn:T.
      apply turn_body_static in T.
      intros H; inversion H; subst. congruence.
    + intros H; inversion H; subst. assumption.
    + intros H; inversion H; subst. assumption.
  - destruct (turn_body (it_recv it) s) as [s2 e2] eqn:T.
    apply turn_body_static in T. intros H; inversion H; subst. assumption.
  - destruct (turn_body (it_recv it) s) as [s2 e2] eqn:T.
    apply turn_body_static in T. intros H; inversion H; subst. assumption.
Qed.

Lemma play_turn_doQuit it s b s' ev :
  play_turn it s = (b, s', ev) ->
  doQuit (ps_player s) = true -> doQuit (ps_player s') = true.
Proof.
  unfold play_turn.
  destruct (ps_drainMode s).
  - destruct (fill_step it s) as [[fl s1] e1] eqn:F.
    destruct fl.
    + destruct (turn_body (it_recv it) s1) as [s2 e2] eqn:T.
      intros H Q; inversion H; subst.
      eapply turn_body_doQuit; eauto. eapply fill_step_doQuit; eauto.
    + intros H Q; inversion H; subst. eapply fill_step_doQuit; eauto.
    + intros H Q; inversion H; subst. eapply fill_step_doQuit; eauto.
  - destruct (turn_body (it_recv it) s) as [s2 e2] eqn:T.
    intros H Q; inversion H; subst. eapply turn_body_doQuit; eauto.
  - destruct (turn_body (it_recv it) s) as [s2 e2] eqn:T.
    intros H Q; inversion H; subst. eapply turn_body_doQuit; eauto.
Qed.

Lemma play_loop_static its : forall s s' turns,
  play_loop its s = (s', turns) ->
  static (ps_player s') = static (ps_player s).
Proof.
  induction its as [| it its IH]; intros s s' turns; simpl.
  - destruct (loop_guard s); [| intros H; inversion H; reflexivity].
    destruct (play_turn eof_iter s) as [[b s1] e1] eqn:T.
    apply play_turn_static in T. intros H; inversion H; subst. assumption.
  - destruct (loop_guard s); [| intros H; inversion H; reflexivity].
    destruct (play_turn it s) as [[b s1] e1] eqn:T.
    apply play_turn_static in T.
    destruct b.
    + intros H; inversion H; subst. assumption.
    + destruct (play_loop its s1) as [s2 e2] eqn:L.
      apply IH in L. intros H; inversion H; subst. congruence.
Qed.

Lemma play_loop_doQuit its : forall s s' turns,
  play_loop its s = (s', turns) ->
  doQuit (ps_player s) = true -> doQuit (ps_player s') = true.
Proof.
  induction its as [| it its IH]; intros s s' turns; simpl;
    unfold loop_guard; intros H Q; rewrite Q in H; simpl in H;
    inversion H; subst; assumption.
Qed.

Lemma play_static its player r p' turns :
  play its player = (r, p', turns) -> static p' = static player.
Proof.
  unfold play.
  destruct (play_loop its (mkPlaySt player blank_packet FILL 0))
    as [s t] eqn:L.
  apply play_loop_static in L. intros H; inversion H; subst. exact L.
Qed.

Lemma play_doQuit its player r p' turns :
  play its player = (r, p', turns) ->
  doQuit player = true -> doQuit p' = true.
Proof.
  unfold play.
  destruct (play_loop its (mkPlaySt player blank_packet FILL 0))
    as [s t] eqn:L.
  intros H Q; inversion H; subst.
  eapply play_loop_doQuit in L; eauto.
Qed.

(** ** The tee muxer in the play loop *)


Lemma AVERROR_INVALIDDATA_neg : AVERROR_INVALIDDATA < 0.
Proof. reflexivity. Qed.

Lemma tee_packet_static p q k :
  static p = static q -> tee_packet p k = tee_packet q k.
Proof.
  unfold static, tee_packet. intros H. inversion H as [[H1 H2 H3 H4 H5]].
  rewrite H2, H3. reflexivity.
Qed.



Lemma static_save_file p q : static p = static q -> save_file p = save_file q.
Proof. unfold static. intros H. inversion H. reflexivity. Qed.






(** ** [save_file] after [openStream] *)

Lemma async_step_inputs p a : inputs (async_step p a) = inputs p.
Proof.
  destruct a; simpl; try reflexivity.
  unfold intCb.
  destruct (1 <? interrupted p); [reflexivity |].
  destruct (negb (interrupted p =? 0)); reflexivity.
Qed.

Lemma run_async_inputs l : forall p, inputs (run_async l p) = inputs p.
Proof.
  unfold run_async.
  induction l as [| a l IH]; intros p; simpl; [reflexivity |].
  rewrite IH. apply async_step_inputs.
Qed.






(** ** The calls of one cycle *)

Ltac each_event :=
  repeat (first [ apply Forall_nil
                | apply Forall_cons; [first [split; reflexivity | reflexivity] |]
                | apply Forall_app; split ]).

Lemma finish_normal p :
  fst (finish p)
  = set_fctx NULL (set_cctx NULL (set_fgraph NULL (set_aoDev NULL p))).
Proof.
  destruct p as [u a al t aa s g m q pa i fc ctb cc fg ao si stm lt sp sd
                   sf o tf sc pw].
  destruct fc, cc, fg; reflexivity.
Qed.

Lemma finish_events p :
  Forall plain (snd (finish p)) /\ no_playback (snd (finish p)).
Proof.
  destruct p as [u a al t aa s g m q pa i fc ctb cc fg ao si stm lt sp sd
                   sf o tf sc pw].
  unfold no_playback.
  destruct fc, cc, fg; cbn; split; each_event.
Qed.

Lemma run_async_lastTimestamp l : forall p,
  lastTimestamp (run_async l p) = lastTimestamp p.
Proof.
  unfold run_async.
  induction l as [| a l IH]; intros p; simpl; [reflexivity |].
  rewrite IH. destruct a; simpl; try reflexivity.
  unfold intCb.
  destruct (1 <? interrupted p); [reflexivity |].
  destruct (negb (interrupted p =? 0)); reflexivity.
Qed.

Lemma openStream_save_events os p :
  Forall plain (snd (openStream_save os p))
  /\ no_playback (snd (openStream_save os p)).
Proof.
  unfold openStream_save, no_playback.
  destruct p as [u a al t aa s g m q pa i fc ctb cc fg ao si stm lt sp sd
                   sf o tf sc pw].
  destruct s as [[dir |] v gm]; cbn.
  - destruct (os_target_exists os), (os_save_path_exists os),
      (os_tmp_dir_exists os); cbn; split; each_event.
  - split; each_event.
Qed.

Lemma openStream_save_keeps os p :
  lastTimestamp (fst (openStream_save os p)) = lastTimestamp p /\
  streamIdx (fst (openStream_save os p)) = streamIdx p /\
  doQuit (fst (openStream_save os p)) = doQuit p.
Proof.
  unfold openStream_save.
  destruct p as [u a al t aa s g m q pa i fc ctb cc fg ao si stm lt sp sd
                   sf o tf sc pw].
  destruct s as [[dir |] v gm]; cbn.
  - destruct (os_target_exists os); cbn; auto.
  - auto.
Qed.

Ltac open_cases os p0 :=
  unfold openStream, softfail;
  set (p0 := run_async (os_async os) (set_fctx Open _));
  destruct (os_open_input os <? 0);
  [| destruct (os_find_stream_info os <? 0);
     [| destruct (streamIdx (set_streamIdx (os_best_stream os) p0) <? 0);
        [| cbn [cctx set_cctx];
           destruct (os_alloc_context3 os);
           [| destruct (os_parameters_to_context os <? 0);
              [| destruct (os_find_decoder os);
                 [| destruct (os_codec_open2 os <? 0) ]]]]]].

Lemma openStream_events os player :
  Forall plain (snd (openStream os player))
  /\ no_playback (snd (openStream os player)).
Proof.
  unfold no_playback.
  open_cases os p0; try solve [cbn; split; each_event].
  match goal with
  | |- context [openStream_save os ?q] =>
      destruct (openStream_save_events os q) as [A B];
      destruct (openStream_save os q) as [p1 e1]
  end.
  cbn [snd] in *.
  destruct (0 <? lastTimestamp _); cbn; split; each_event; assumption.
Qed.


Lemma openStream_doQuit os player :
  doQuit player = true -> doQuit (snd (fst (openStream os player))) = true.
Proof.
  intros Q.
  assert (Q0 : doQuit (run_async (os_async os) (set_fctx Open player)) = true)
    by (apply run_async_doQuit; exact Q).
  revert Q0.
  open_cases os p0; intros Q0; try exact Q0.
  match goal with
  | |- context [openStream_save os ?q] =>
      destruct (openStream_save_keeps os q) as (_ & _ & C);
      destruct (openStream_save os q) as [p1 e1]
  end.
  cbn [fst snd] in *. rewrite C. exact Q0.
Qed.

Lemma openFilter_facts fs p :
  let r := openFilter fs p in
  Forall plain (snd r) /\ no_playback (snd r) /\
  doQuit (snd (fst r)) = doQuit p /\
  lastTimestamp (snd (fst r)) = lastTimestamp p.
Proof.
  unfold openFilter, softfail, no_playback. cbn [fgraph set_fgraph].
  destruct (fs_graph_alloc fs); [cbn; repeat split; each_event |].
  destruct (fs_abuffer fs <? 0); [cbn; repeat split; each_event |].
  destruct (fs_volume fs <? 0); [cbn; repeat split; each_event |].
  destruct (fs_aformat fs <? 0); [cbn; repeat split; each_event |].
  destruct (fs_abuffersink fs <? 0); [cbn; repeat split; each_event |].
  destruct (negb (fs_link1 fs =? 0) || negb (fs_link2 fs =? 0)
            || negb (fs_link3 fs =? 0));
    [cbn; repeat split; each_event |].
  destruct (fs_graph_config fs <? 0); cbn; repeat split; each_event.
Qed.

Lemma openDevice_facts dev p :
  let r := openDevice dev p in
  Forall plain (snd r) /\ no_playback (snd r) /\
  doQuit (snd (fst r)) = doQuit p /\
  lastTimestamp (snd (fst r)) = lastTimestamp p.
Proof.
  unfold openDevice, no_playback. cbn [aoDev set_aoDev].
  destruct dev; cbn; repeat split; each_event.
Qed.

Lemma BarPlayerSetVolume_events ret p :
  Forall plain (BarPlayerSetVolume ret p)
  /\ no_playback (BarPlayerSetVolume ret p).
Proof.
  unfold BarPlayerSetVolume, no_playback.
  destruct (mode p); try solve [split; each_event].
  destruct (ret <? 0); split; each_event.
Qed.







(** ** One turn of the retry loop *)

Ltac attempt_cases c player :=
  unfold attempt;
  let EO := fresh "EO" in
  let EF := fresh "EF" in
  let ED := fresh "ED" in
  let EP := fresh "EP" in
  destruct (openStream (cs_open c) player) as [[ok p1] ev1] eqn:EO;
  destruct ok;
  [ destruct (openFilter (cs_filter c) p1) as [[okf p2] evf] eqn:EF;
    destruct okf;
    [ destruct (openDevice (cs_device c) p2) as [[okd p3] evd] eqn:ED;
      destruct okd;
      [ cbn [andb];
        destruct (play (cs_play c) (set_mode PLAYER_PLAYING p3))
          as [[r pp] turns] eqn:EP
      | cbn [andb] ]
    | cbn [andb] ]
  | ];
  match goal with
  | |- context [finish ?q] =>
      let FN := fresh "FN" in
      let FE := fresh "FE" in
      pose proof (finish_normal q) as FN;
      pose proof (finish_events q) as FE;
      destruct (finish q) as [pf evfin];
      cbn [fst snd] in FN, FE; subst pf
  end;
  cbn [at_retry at_pret at_player at_opened at_played at_events].

(** [retry] is what line 572 computes; [pret] changes only when [play]
    was not reached. *)
Lemma attempt_locals c pret player :
  let a := attempt c pret player in
  at_retry a
  = match at_played a with
    | Some (r, pp) => (r =? AVERROR_INVALIDDATA) && (interrupted pp =? 0)
    | None => false
    end /\
  at_pret a
  = match at_played a with
    | Some _ => pret
    | None => if at_opened a then PLAYER_RET_HARDFAIL else PLAYER_RET_SOFTFAIL
    end /\
  (at_opened a = false -> at_played a = None) /\
  at_opened a = fst (fst (openStream (cs_open c) player)).
Proof.
  attempt_cases c player; repeat split; try reflexivity;
    intros; try discriminate; reflexivity.
Qed.

Lemma attempt_player c pret player :
  let a := attempt c pret player in
  held (at_player a) = [] /\ mode (at_player a) = PLAYER_WAITING /\
  (forall r pp, at_played a = Some (r, pp) ->
     at_player a
     = set_fctx NULL (set_cctx NULL (set_fgraph NULL (set_aoDev NULL
         (set_mode PLAYER_WAITING pp))))).
Proof.
  attempt_cases c player; repeat split; try reflexivity;
    intros r0 pp0 H; inversion H; reflexivity.
Qed.


Lemma attempt_doQuit c pret player :
  doQuit player = true -> doQuit (at_player (attempt c pret player)) = true.
Proof.
  intros Q.
  pose proof (openStream_doQuit (cs_open c) player Q) as A.
  attempt_cases c player; cbn [fst snd] in A; cbn.
  - pose proof (openFilter_facts (cs_filter c) p1) as (_ & _ & B & _).
    rewrite EF in B; cbn [fst snd] in B.
    pose proof (openDevice_facts (cs_device c) p2) as (_ & _ & C & _).
    rewrite ED in C; cbn [fst snd] in C.
    eapply play_doQuit; [exact EP |]. cbn. congruence.
  - pose proof (openFilter_facts (cs_filter c) p1) as (_ & _ & B & _).
    rewrite EF in B; cbn [fst snd] in B.
    pose proof (openDevice_facts (cs_device c) p2) as (_ & _ & C & _).
    rewrite ED in C; cbn [fst snd] in C. congruence.
  - pose proof (openFilter_facts (cs_filter c) p1) as (_ & _ & B & _).
    rewrite EF in B; cbn [fst snd] in B. congruence.
  - exact A.
Qed.


(** ** Retry *)



(** ** The worker's result *)

Lemma attempts_head c cs pret p :
  In (attempt c pret p) (attempts (c :: cs) pret p).
Proof. cbn [attempts]. left. reflexivity. Qed.

Lemma attempts_played_ok cs : forall pret player a r pp,
  In a (attempts cs pret player) -> at_played a = Some (r, pp) ->
  r <> AVERROR_INVALIDDATA ->
  at_retry a = false /\
  exists p' ev, retry_loop cs pret player = Some (pret, p', ev).
Proof.
  induction cs as [| c cs IH]; intros pret player a r pp HIn E N;
    [contradiction |].
  cbn [attempts] in HIn. cbn [retry_loop].
  destruct (attempt_locals c pret player) as (R & P & _ & _).
  remember (attempt c pret player) as a0 eqn:Ea0.
  destruct HIn as [<- | HIn].
  - assert (F : at_retry a0 = false).
    { rewrite R, E. apply Z.eqb_neq in N. rewrite N. reflexivity. }
    split; [exact F |]. rewrite F. rewrite E in P. rewrite P. eauto.
  - destruct (at_retry a0) eqn:T; [| contradiction].
    assert (P' : at_pret a0 = pret).
    { rewrite P. rewrite R in T.
      destruct (at_played a0) as [[r0 pp0] |]; [reflexivity | discriminate]. }
    rewrite P' in HIn |- *.
    destruct (IH _ _ _ _ _ HIn E N) as (F & p' & ev & L).
    split; [exact F |]. rewrite L. eauto.
Qed.

Lemma retry_loop_last cs : forall pret player res p' ev,
  retry_loop cs pret player = Some (res, p', ev) ->
  exists c q,
    In (attempt c pret q) (attempts cs pret player) /\
    at_retry (attempt c pret q) = false /\
    res = at_pret (attempt c pret q) /\
    p' = at_player (attempt c pret q).
Proof.
  induction cs as [| c cs IH]; intros pret player res p' ev; [discriminate |].
  cbn [retry_loop attempts].
  destruct (attempt_locals c pret player) as (R & P & _ & _).
  remember (attempt c pret player) as a0 eqn:Ea0.
  destruct (at_retry a0) eqn:T.
  - assert (P' : at_pret a0 = pret).
    { rewrite P. rewrite R in T.
      destruct (at_played a0) as [[r0 pp0] |]; [reflexivity | discriminate]. }
    rewrite P'.
    destruct (retry_loop cs pret (at_player a0)) as [[[r1 p1] e1] |] eqn:L;
      [| discriminate].
    intros H; inversion H; subst.
    destruct (IH _ _ _ _ _ L) as (c' & q & HIn & F & E1 & E2).
    exists c', q. repeat split; auto. right. exact HIn.
  - intros H; inversion H; subst.
    exists c, player. repeat split; auto. left. reflexivity.
Qed.

(** C10.  In any cycle of a run, if [play] returns something other than
    [AVERROR_INVALIDDATA] (a read error in mid-stream, or the end of the
    stream), that cycle is the last and the worker returns
    [PLAYER_RET_OK].  The worker returns [PLAYER_RET_SOFTFAIL] only when
    [openStream] failed in the last cycle, in which [play] was never
    called. *)
Theorem play_errors_return_ok (cs : list cycle_script) (player : player_t) :
  (forall a r pp,
     In a (attempts cs PLAYER_RET_OK player) ->
     at_played a = Some (r, pp) -> r <> AVERROR_INVALIDDATA ->
     at_retry a = false /\
     exists p' ev, BarPlayerThread cs player = Some (PLAYER_RET_OK, p', ev)) /\
  (forall p' ev,
     BarPlayerThread cs player = Some (PLAYER_RET_SOFTFAIL, p', ev) ->
     exists a,
       In a (attempts cs PLAYER_RET_OK player) /\
       at_retry a = false /\ at_opened a = false /\ at_played a = None).
Proof.
  split.
  - intros a r pp HIn E N.
    destruct (attempts_played_ok cs _ _ _ _ _ HIn E N) as (F & p' & ev & L).
    split; [exact F |]. unfold BarPlayerThread. rewrite L. eauto.
  - intros p' ev. unfold BarPlayerThread.
    destruct (retry_loop cs PLAYER_RET_OK player) as [[[r1 p1] e1] |] eqn:L;
      [| discriminate].
    intros H; inversion H; subst.
    destruct (retry_loop_last _ _ _ _ _ _ L) as (c & q & HIn & F & E1 & _).
    exists (attempt c PLAYER_RET_OK q).
    destruct (attempt_locals c PLAYER_RET_OK q) as (_ & P & _ & _).
    rewrite P in E1.
    destruct (at_played (attempt c PLAYER_RET_OK q)) as [[r0 pp0] |];
      [discriminate |].
    destruct (at_opened (attempt c PLAYER_RET_OK q)); [discriminate |].
    auto.
Qed.

Lemma play_errors_return_ok_witness :
  exists p' ev,
    BarPlayerThread [Sample.c_io_error] Sample.player0
    = Some (PLAYER_RET_OK, p', ev).
Proof.
  pose proof (proj1 (play_errors_return_ok [Sample.c_io_error]
                       Sample.player0)) as H.
  assert (E : exists pp,
             at_played (attempt Sample.c_io_error PLAYER_RET_OK Sample.player0)
             = Some (-5, pp)).
  { vm_compute. eexists. reflexivity. }
  destruct E as [pp E].
  assert (N : -5 <> AVERROR_INVALIDDATA) by (vm_compute; discriminate).
  exact (proj2 (H _ (-5) pp (attempts_head _ _ _ _) E N)).
Defined.

(** ** Trailer and transcode *)






(** ** End of file before the first packet *)

(** What the turn that meets the end of the stream does to the
    timestamps, whatever packet [k] the failed read leaves in [pkt]:
    [songPlayed] becomes the time base times [pts k] and [lastTimestamp]
    becomes [pts k]. *)
Lemma play_eof_first (player : player_t) (k : AVPacket) :
  doQuit player = false ->
  let res := play [mkIter [] AVERROR_EOF k [mkRecv [] AVERROR_EOF 0 []]]
               player in
  fst (fst res) = AVERROR_EOF /\
  songPlayed (snd (fst res))
  = (av_q2d (time_base (st player)) * inject_Z (pts k))%Q /\
  lastTimestamp (snd (fst res)) = pts k.
Proof.
  destruct player as [u a al t aa s g m q pa i fc ctb cc fg ao si stm lt sp sd
                        sf o tf sc pw].
  cbn [doQuit]. intros ->.
  destruct sf, pa; vm_compute; repeat split; reflexivity.
Qed.

(** C8, on the code.  The stream ends before it delivers a packet: the
    worker returns [PLAYER_RET_OK], no packet was read, and [songPlayed]
    is the time base times [AV_NOPTS_VALUE], the timestamp of the blank
    packet, not 0; [lastTimestamp] is [AV_NOPTS_VALUE]. *)
Theorem eof_first_songPlayed :
  exists p' ev,
    BarPlayerThread [Sample.c_empty] Sample.player0
    = Some (PLAYER_RET_OK, p', ev) /\
    read_packets ev = [] /\
    songPlayed p' = (av_q2d Sample.tb * inject_Z AV_NOPTS_VALUE)%Q /\
    ~ (songPlayed p' == 0)%Q /\
    lastTimestamp p' = AV_NOPTS_VALUE.
Proof.
  eexists. eexists. split; [vm_compute; reflexivity |].
  repeat split; try (vm_compute; reflexivity).
  vm_compute. discriminate.
Qed.

(** ** Tag strings *)

Lemma escape_tag_bytes c s :
  escape_tag (String c s) = (escape_byte c ++ escape_tag s)%string.
Proof.
  unfold escape_byte. simpl.
  destruct (Ascii.eqb c dquote); [reflexivity |].
  destruct (Ascii.eqb c "/"); reflexivity.
Qed.

Lemma escape_byte_cases c :
  (c = dquote -> escape_byte c = String backslash (String dquote EmptyString))
  /\ (c = "/"%char -> escape_byte c = " "%string)
  /\ (c <> dquote -> c <> "/"%char -> escape_byte c = String c EmptyString).
Proof.
  unfold escape_byte. repeat split.
  - intros ->. reflexivity.
  - intros ->. reflexivity.
  - intros H1 H2.
    apply Ascii.eqb_neq in H1, H2. rewrite H1, H2. reflexivity.
Qed.

Lemma sanitize_filename_bytes s : forall n,
  String.get n (sanitize_filename s)
  = option_map filename_byte (String.get n s).
Proof.
  induction s as [| c s IH]; intros n; simpl; [reflexivity |].
  destruct n; [reflexivity | apply IH].
Qed.

Lemma filename_byte_cases c :
  (c = "/"%char -> filename_byte c = " "%char)
  /\ (c = "$"%char -> filename_byte c = "S"%char)
  /\ (c <> "/"%char -> c <> "$"%char -> filename_byte c = c).
Proof.
  unfold filename_byte. repeat split.
  - intros ->. reflexivity.
  - intros ->. reflexivity.
  - intros H1 H2.
    apply Ascii.eqb_neq in H1, H2. rewrite H1, H2. reflexivity.
Qed.

(** C9, on the code.  A title with a double quote: the loop over the
    artist and album escapes it, the loop over the file name leaves it as
    it is, so the temp path carries a bare quote; and the [lame] command
    takes the title as the caller gave it, not the escaped copy. *)
Theorem quote_in_title_not_escaped :
  escape_tag Sample.quote_title
    = ("a" ++ String backslash dq ++ "b")%string /\
  filename_byte dquote = dquote /\
  sanitize_filename (Sample.quote_title ++ ".aac")
    = (Sample.quote_title ++ ".aac")%string /\
  tmp_filename (snd (fst (openStream Sample.os_ok Sample.player_quote)))
    = ("/tmp/pianobar/a" ++ dq ++ "b.aac")%string /\
  exists p' ev,
    BarPlayerThread [Sample.c_song] Sample.player_quote
    = Some (PLAYER_RET_OK, p', ev) /\
    In (EvSystem
          ("lame  --vbr-new --preset standard --tt "
           ++ quoted ("a" ++ dq ++ "b")
           ++ " --ta " ++ quoted "AC DC"
           ++ " --tl " ++ quoted "Back in Black"
           ++ " --add-id3v2 " ++ quoted ("/tmp/pianobar/a" ++ dq ++ "b.mp3")
           ++ " " ++ quoted ("/out/AC DC/Back in Black/a" ++ dq ++ "b.mp3"))%string)
       ev.
Proof.
  repeat split; try (vm_compute; reflexivity).
  eexists. eexists. split; [vm_compute; reflexivity |].
  vm_compute. repeat (first [left; reflexivity | right]).
Qed.

(** ** Packets, decoder and muxer *)

Lemma decoder_side_quiet l :
  Forall decoder_side l ->
  sent_packets l = [] /\ read_packets l = [] /\ muxer_writes l = [].
Proof.
  unfold sent_packets, read_packets, muxer_writes.
  induction 1 as [| e l He _ (A & B & C)]; simpl; [auto |].
  destruct e; try contradiction; simpl; auto.
Qed.

Lemma receive_loop_decoder_side rs : forall p m r p' m' r' ev,
  receive_loop rs p m r = (p', m', r', ev) -> Forall decoder_side ev.
Proof.
  induction rs as [| x rs IH]; intros p m r p' m' r' ev; simpl.
  - destruct (doQuit p); intros H; inversion H; repeat constructor.
  - destruct (doQuit p); [intros H; inversion H; constructor |].
    destruct (rc_ret x =? AVERROR_EOF);
      [intros H; inversion H; repeat constructor |].
    destruct (negb (rc_ret x =? 0));
      [intros H; inversion H; repeat constructor |].
    destruct (receive_loop rs (run_async (rc_async x) p) m 0)
      as [[[p1 m1] r1] e1] eqn:E.
    intros H; inversion H; subst.
    apply IH in E.
    repeat (apply Forall_cons; [exact I |]).
    apply Forall_app. split; [| exact E].
    apply Forall_forall. intros e He. apply in_map_iff in He.
    destruct He as (f & <- & _). exact I.
Qed.

(** The calls of the turn after the [FILL] block: one muxer write when
    saving is on, none otherwise; no read and no send. *)
Lemma turn_body_accounting rs s s' ev :
  turn_body rs s = (s', ev) ->
  sent_packets ev = [] /\ read_packets ev = [] /\
  muxer_writes ev
  = if save_file (ps_player s)
    then [tee_packet (ps_player s) (ps_pkt s)] else [].
Proof.
  unfold turn_body.
  change (save_file (set_pkt_write (ps_pkt s) (ps_player s)))
    with (save_file (ps_player s)).
  destruct (save_file (ps_player s));
    destruct (doPause (set_pkt_write (ps_pkt s) (ps_player s)));
    match goal with
    | |- context [receive_loop rs ?q ?m ?r] =>
        destruct (receive_loop rs q m r) as [[[p1 m1] r1] e1] eqn:E
    end;
    intros H; inversion H; subst;
    apply receive_loop_decoder_side in E;
    destruct (decoder_side_quiet _ E) as (A & B & C);
    unfold sent_packets, read_packets, muxer_writes in *;
    cbn [app flat_map]; rewrite ?flat_map_app, ?A, ?B, ?C;
    repeat split; reflexivity.
Qed.

Lemma selected_static p q k :
  static p = static q -> selected p k = selected q k.
Proof.
  unfold selected, static. intros H. inversion H. congruence.
Qed.

Lemma turn_accounts_static p q ev :
  static p = static q -> turn_accounts p ev -> turn_accounts q ev.
Proof.
  intros S [A B]. split.
  - rewrite A. apply filter_ext. intros k. apply selected_static. exact S.
  - intros SF k Hk.
    rewrite <- (static_save_file _ _ S) in SF.
    destruct (B SF k Hk) as [B1 B2]. split; [exact B1 |].
    rewrite B2, (tee_packet_static _ _ k S). reflexivity.
Qed.

Lemma play_turn_accounting it s b s' ev :
  play_turn it s = (b, s', ev) -> turn_accounts (ps_player s) ev.
Proof.
  unfold play_turn, turn_accounts. intros H.
  destruct (ps_drainMode s).
  - destruct (fill_step it s) as [[fl s1] e1] eqn:F.
    pose proof (run_async_static (it_async it) (ps_player s)) as S0.
    unfold fill_step in F.
    destruct (Z.eqb_spec (it_read_ret it) AVERROR_EOF) as [Heof | Heof].
    { inversion F; subst fl s1 e1.
      destruct (turn_body (it_recv it) _) as [s2 e2] eqn:T.
      destruct (turn_body_accounting _ _ _ _ T) as (A & B & C).
      inversion H; subst.
      unfold sent_packets, read_packets, muxer_writes in *.
      cbn [app flat_map]. rewrite A, B, Heof.
      split; [reflexivity |]. intros _ k Hk. destruct Hk. }
    destruct (Z.eqb_spec (stream_index (it_read_pkt it))
                (streamIdx (run_async (it_async it) (ps_player s))))
      as [Hs | Hs]; simpl in F.
    2:{ inversion F; subst fl s1 e1. inversion H; subst.
        unfold sent_packets, read_packets, muxer_writes.
        cbn [app flat_map]. split; [| intros _ k Hk; destruct Hk].
        rewrite app_nil_r.
        destruct (0 <=? it_read_ret it); [| reflexivity].
        simpl. rewrite (selected_static _ _ _ (eq_sym S0)).
        unfold selected. apply Z.eqb_neq in Hs. rewrite Hs. reflexivity. }
    destruct (Z.ltb_spec (it_read_ret it) 0) as [Hneg | Hneg].
    { inversion F; subst fl s1 e1. inversion H; subst.
      unfold sent_packets, read_packets, muxer_writes.
      cbn [app flat_map]. split; [| intros _ k Hk; destruct Hk].
      destruct (Z.leb_spec 0 (it_read_ret it)); [lia | reflexivity]. }
    inversion F; subst fl s1 e1.
    destruct (turn_body (it_recv it) _) as [s2 e2] eqn:T.
    destruct (turn_body_accounting _ _ _ _ T) as (A & B & C).
    cbn [ps_player ps_pkt] in C.
    inversion H; subst.
    unfold sent_packets, read_packets, muxer_writes in *.
    cbn [app flat_map]. rewrite A, B, C.
    destruct (Z.leb_spec 0 (it_read_ret it)); [| lia].
    cbn [app filter].
    rewrite (selected_static _ _ _ (eq_sym S0)).
    unfold selected at 1. apply Z.eqb_eq in Hs. rewrite Hs.
    split; [reflexivity |].
    intros SF k [<- | []]. split; [reflexivity |].
    rewrite (static_save_file _ _ S0), SF.
    rewrite (tee_packet_static _ _ _ S0). reflexivity.
  - destruct (turn_body (it_recv it) s) as [s2 e2] eqn:T.
    destruct (turn_body_accounting _ _ _ _ T) as (A & B & C).
    inversion H; subst. rewrite A, B.
    split; [reflexivity | intros _ k Hk; destruct Hk].
  - destruct (turn_body (it_recv it) s) as [s2 e2] eqn:T.
    destruct (turn_body_accounting _ _ _ _ T) as (A & B & C).
    inversion H; subst. rewrite A, B.
    split; [reflexivity | intros _ k Hk; destruct Hk].
Qed.

Lemma play_loop_accounting its : forall s s' turns,
  play_loop its s = (s', turns) ->
  Forall (turn_accounts (ps_player s)) turns.
Proof.
  induction its as [| it its IH]; intros s s' turns; simpl.
  - destruct (loop_guard s); [| intros H; inversion H; constructor].
    destruct (play_turn eof_iter s) as [[b s1] e1] eqn:T.
    intros H; inversion H; subst.
    constructor; [eapply play_turn_accounting; eauto | constructor].
  - destruct (loop_guard s); [| intros H; inversion H; constructor].
    destruct (play_turn it s) as [[b s1] e1] eqn:T.
    pose proof (play_turn_static _ _ _ _ _ T) as ST.
    destruct b.
    + intros H; inversion H; subst.
      constructor; [eapply play_turn_accounting; eauto | constructor].
    + destruct (play_loop its s1) as [s2 e2] eqn:L.
      intros H; inversion H; subst.
      constructor; [eapply play_turn_accounting; eauto |].
      apply IH in L.
      eapply Forall_impl; [| exact L].
      intros turn. apply turn_accounts_static. exact ST.
Qed.

(** The part of C4 that holds on every run: turn by turn, and so over the
    whole loop, each packet read with a non-negative code is handed to the
    decoder once if it belongs to the selected stream and not at all
    otherwise; and with saving on, the turn that hands a packet to the
    decoder writes its copy, and nothing else, to the muxer. *)
Lemma play_accounting its player r p' turns :
  play its player = (r, p', turns) ->
  Forall (turn_accounts player) turns /\
  sent_packets (List.concat turns)
  = filter (selected player) (read_packets (List.concat turns)).
Proof.
  unfold play.
  destruct (play_loop its (mkPlaySt player blank_packet FILL 0))
    as [s t] eqn:L.
  apply play_loop_accounting in L. cbn [ps_player] in L.
  intros H; inversion H; subst. split; [exact L |].
  clear - L. induction L as [| ev evs [A _] _ IH]; [reflexivity |].
  unfold sent_packets, read_packets in *. cbn [List.concat].
  rewrite !flat_map_app, filter_app, A, IH. reflexivity.
Qed.

(** C4, on the code.  One packet and then the end of the stream, with
    saving on: the decoder gets the one packet, the muxer gets two writes,
    the copy of the packet and, in the turn that meets the end of the
    stream, a copy of the blank packet. *)
Theorem muxer_written_at_eof :
  sent_packets
    (List.concat (snd (play [Sample.turn_ok 1 1024; Sample.turn_eof]
                         Sample.player_playing)))
  = [Sample.pk 1 1024] /\
  muxer_writes
    (List.concat (snd (play [Sample.turn_ok 1 1024; Sample.turn_eof]
                         Sample.player_playing)))
  = [tee_packet Sample.player_playing (Sample.pk 1 1024);
     tee_packet Sample.player_playing blank_packet].
Proof.
  split; vm_compute; reflexivity.
Qed.

(** * Further properties of the code *)

(** ** Strings *)


Lemma filename_byte_idem c : filename_byte (filename_byte c) = filename_byte c.
Proof.
  unfold filename_byte.
  destruct (Ascii.eqb c "/") eqn:E1; [reflexivity |].
  destruct (Ascii.eqb c "$") eqn:E2; [reflexivity |].
  rewrite E1, E2. reflexivity.
Qed.

Lemma filename_byte_clean c :
  negb (Ascii.eqb (filename_byte c) "/")
  && negb (Ascii.eqb (filename_byte c) "$") = true.
Proof.
  unfold filename_byte.
  destruct (Ascii.eqb c "/") eqn:E1; [reflexivity |].
  destruct (Ascii.eqb c "$") eqn:E2; [reflexivity |].
  rewrite E1, E2. reflexivity.
Qed.

(** The loop over the file name, lines 268-275: the result has the length
    of the input, holds neither a slash nor a dollar, and running the
    loop again changes nothing. *)
Theorem sanitize_filename_safe (s : string) :
  String.length (sanitize_filename s) = String.length s /\
  all_bytes (fun c => negb (Ascii.eqb c "/") && negb (Ascii.eqb c "$"))
    (sanitize_filename s) = true /\
  sanitize_filename (sanitize_filename s) = sanitize_filename s.
Proof.
  unfold all_bytes.
  induction s as [| c s (L & A & I)]; simpl; [auto |].
  rewrite L, A, I, filename_byte_idem, filename_byte_clean. auto.
Qed.

Lemma quotes_escaped_escape_tag s : forall prev,
  quotes_escaped_from prev (escape_tag s) = true.
Proof.
  induction s as [| c s IH]; intros prev; simpl; [reflexivity |].
  destruct (Ascii.eqb c dquote) eqn:E1.
  - apply Ascii.eqb_eq in E1. subst c. simpl. apply IH.
  - destruct (Ascii.eqb c "/") eqn:E2.
    + simpl. apply IH.
    + simpl. rewrite E1. simpl. apply IH.
Qed.

(** The loop over artist, album and title, lines 230-241: the copy needs
    one byte more for every double quote of the tag (so it fits the
    100-byte buffer, with its terminator, only while the length plus the
    number of quotes is at most 99); it holds no slash; and every double
    quote in it comes right after a backslash. *)
Theorem escape_tag_safe (s : string) :
  String.length (escape_tag s)
    = (String.length s + count_byte dquote s)%nat /\
  all_bytes (fun c => negb (Ascii.eqb c "/")) (escape_tag s) = true /\
  quotes_escaped (escape_tag s) = true.
Proof.
  split; [| split; [| apply quotes_escaped_escape_tag]].
  - unfold count_byte.
    induction s as [| c s IH]; [reflexivity |].
    cbn [escape_tag list_ascii_of_string filter].
    rewrite (Ascii.eqb_sym dquote c).
    destruct (Ascii.eqb c dquote).
    + cbn [String.length List.length]. rewrite IH. lia.
    + destruct (Ascii.eqb c "/"); cbn [String.length]; rewrite IH;
        reflexivity.
  - unfold all_bytes.
    induction s as [| c s IH]; simpl; [reflexivity |].
    destruct (Ascii.eqb c dquote) eqn:E1.
    + apply Ascii.eqb_eq in E1. subst c. simpl. exact IH.
    + destruct (Ascii.eqb c "/") eqn:E2; simpl; [exact IH |].
      rewrite E2. simpl. exact IH.
Qed.






(** ** [openStream] *)

Lemma run_async_kept l : forall p, kept (run_async l p) = kept p.
Proof.
  unfold run_async.
  induction l as [| a l IH]; intros p; simpl; [reflexivity |].
  rewrite IH. destruct a; simpl; try reflexivity.
  unfold intCb.
  destruct (1 <? interrupted p); [reflexivity |].
  destruct (negb (interrupted p =? 0)); reflexivity.
Qed.

(** [openStream] succeeds exactly when its seven checks pass; nothing in
    the save path can make it fail. *)
Theorem openStream_result (os : open_script) (player : player_t) :
  fst (fst (openStream os player)) = bring_up_ok os.
Proof.
  unfold bring_up_ok, openStream, softfail.
  cbn [streamIdx set_streamIdx cctx set_cctx].
  destruct (os_open_input os <? 0); [reflexivity |].
  destruct (os_find_stream_info os <? 0); [reflexivity |].
  destruct (os_best_stream os <? 0); [reflexivity |].
  destruct (os_alloc_context3 os); [reflexivity |].
  destruct (os_parameters_to_context os <? 0); [reflexivity |].
  destruct (os_find_decoder os); [reflexivity |].
  destruct (os_codec_open2 os <? 0); [reflexivity |].
  destruct (openStream_save os _). reflexivity.
Qed.

Lemma bring_up_ok_true os :
  bring_up_ok os = true ->
  (os_open_input os <? 0) = false /\
  (os_find_stream_info os <? 0) = false /\
  (os_best_stream os <? 0) = false /\
  os_alloc_context3 os = Open /\
  (os_parameters_to_context os <? 0) = false /\
  os_find_decoder os = Open /\
  (os_codec_open2 os <? 0) = false.
Proof.
  unfold bring_up_ok. intros H.
  repeat (apply andb_prop in H; destruct H as [H ?]).
  repeat match goal with
         | K : negb _ = true |- _ => apply negb_true_iff in K
         end.
  destruct (os_alloc_context3 os); [discriminate |].
  destruct (os_find_decoder os); [discriminate |].
  repeat split; assumption.
Qed.

Lemma run_async_url l p : url (run_async l p) = url p.
Proof.
  pose proof (run_async_inputs l p) as H. unfold inputs in H.
  inversion H. reflexivity.
Qed.

(** The shape of a successful [openStream]. *)
Lemma openStream_ok os player :
  bring_up_ok os = true ->
  openStream os player
  = (true, fst (openStream_save os (opened os player)),
     open_calls os player ++ snd (openStream_save os (opened os player))).
Proof.
  intros H. apply bring_up_ok_true in H.
  destruct H as (H1 & H2 & H3 & H4 & H5 & H6 & H7).
  unfold openStream, softfail, opened, open_calls.
  cbn [streamIdx set_streamIdx cctx set_cctx lastTimestamp
       set_st set_codec_time_base0].
  rewrite H1, H2, H3, H4, H5, H6, H7.
  cbn [streamIdx set_streamIdx cctx set_cctx lastTimestamp
       set_st set_codec_time_base0 url set_fctx].
  rewrite run_async_lastTimestamp, run_async_url.
  cbn [lastTimestamp set_fctx url].
  destruct (openStream_save os _) as [q e].
  cbn [fst snd]. destruct (0 <? lastTimestamp player); reflexivity.
Qed.

(** A failing [openStream] makes the probing calls up to the failing
    check and then reports one error, as its last call: no seek, nothing
    of the save path.  It leaves [save_file], the muxer, both paths,
    [songPlayed], [songDuration], [lastTimestamp] and [mode] as they
    were, so after a failed re-open they still hold the values of the
    cycle before. *)
Theorem openStream_failure (os : open_script) (player p' : player_t)
    (ev : list event) :
  openStream os player = (false, p', ev) ->
  kept p' = kept player /\
  exists pre msg,
    ev = pre ++ [EvMsg msg] /\ forallb is_probe pre = true.
Proof.
  assert (K : kept (run_async (os_async os) (set_fctx Open player))
              = kept player)
    by (rewrite run_async_kept; reflexivity).
  revert K.
  unfold openStream, softfail.
  cbn [streamIdx set_streamIdx cctx set_cctx].
  set (p0 := run_async (os_async os) (set_fctx Open player)).
  intros K.
  destruct (os_open_input os <? 0);
    [intros H; inversion H; subst; split;
       [rewrite <- K; reflexivity
       | exists [EvOpenInput (url p0)];
         eexists; split; reflexivity] |].
  destruct (os_find_stream_info os <? 0);
    [intros H; inversion H; subst; split;
       [rewrite <- K; reflexivity
       | exists [EvOpenInput (url p0); EvFindStreamInfo];
         eexists; split; reflexivity] |].
  destruct (os_best_stream os <? 0);
    [intros H; inversion H; subst; split;
       [rewrite <- K; reflexivity
       | exists [EvOpenInput (url p0); EvFindStreamInfo; EvFindBestStream];
         eexists; split; reflexivity] |].
  destruct (os_alloc_context3 os);
    [intros H; inversion H; subst; split;
       [rewrite <- K; reflexivity
       | exists [EvOpenInput (url p0); EvFindStreamInfo; EvFindBestStream];
         eexists; split; reflexivity] |].
  destruct (os_parameters_to_context os <? 0);
    [intros H; inversion H; subst; split;
       [rewrite <- K; reflexivity
       | exists [EvOpenInput (url p0); EvFindStreamInfo; EvFindBestStream];
         eexists; split; reflexivity] |].
  destruct (os_find_decoder os);
    [intros H; inversion H; subst; split;
       [rewrite <- K; reflexivity
       | exists [EvOpenInput (url p0); EvFindStreamInfo; EvFindBestStream];
         eexists; split; reflexivity] |].
  destruct (os_codec_open2 os <? 0);
    [intros H; inversion H; subst; split;
       [rewrite <- K; reflexivity
       | exists [EvOpenInput (url p0); EvFindStreamInfo; EvFindBestStream];
         eexists; split; reflexivity] |].
  destruct (openStream_save os _). discriminate.
Qed.

Lemma openStream_failure_witness :
  exists pre msg,
    snd (openStream Sample.os_no_input Sample.player_save)
    = pre ++ [EvMsg msg] /\ forallb is_probe pre = true.
Proof.
  destruct (openStream Sample.os_no_input Sample.player_save)
    as [[ok p'] ev] eqn:E.
  assert (Hok : ok = false).
  { apply (f_equal (fun x => fst (fst x))) in E. vm_compute in E.
    symmetry. exact E. }
  subst ok.
  exact (proj2 (openStream_failure _ _ _ _ E)).
Defined.

(** What the save path does, case by case. *)
Lemma openStream_save_none os q :
  save_dir (settings q) = None ->
  openStream_save os q = (set_ofcx None (set_save_file false q), []).
Proof.
  unfold openStream_save.
  destruct q as [u a al t aa s g m dq pa i fc ctb cc fg ao si stm lt sp sd
                   sf o tf sc pw].
  destruct s as [sdir v gm]. cbn. intros ->. reflexivity.
Qed.

Lemma openStream_save_some os q dir :
  save_dir (settings q) = Some dir ->
  let tmp := ("/tmp/pianobar/"
              ++ sanitize_filename (title q ++ ".aac"))%string in
  let target := to_mp3 (album_dir q dir
                        ++ sanitize_filename (title q ++ ".aac"))%string in
  let r := openStream_save os q in
  frame (fst r) = frame q /\
  tmp_filename (fst r) = tmp /\
  save_complete (fst r) = target /\
  save_file (fst r) = negb (os_target_exists os) /\
  ofcx (fst r)
  = (if os_target_exists os then None
     else Some (mkMuxer tmp (os_ost_id os) (time_base (st q)))) /\
  snd r
  = (if os_save_path_exists os then []
     else [EvSystem ("mkdir -p " ++ quoted (album_dir q dir))%string])
    ++ (if os_tmp_dir_exists os then [] else [EvMkdir "/tmp/pianobar"])
    ++ [EvCurlPerform (album_art q) (album_dir q dir ++ "/cover.jpg")%string]
    ++ (if os_target_exists os then [] else muxer_setup_calls os tmp).
Proof.
  unfold openStream_save, album_dir, with_slash, muxer_setup_calls.
  destruct q as [u a al t aa s g m dq pa i fc ctb cc fg ao si stm lt sp sd
                   sf o tf sc pw].
  destruct s as [sdir v gm]. cbn [save_dir settings]. intros ->.
  cbn -[to_mp3 sanitize_filename escape_tag ends_with_slash String.append].
  destruct (os_target_exists os);
    cbn -[to_mp3 sanitize_filename escape_tag ends_with_slash String.append];
    repeat split; rewrite ?app_nil_r, <- ?app_assoc; reflexivity.
Qed.

Lemma pair_eq_inv {A B} (a c : A) (b d : B) :
  (a, b) = (c, d) -> a = c /\ b = d.
Proof. intros H. inversion H. auto. Qed.

Ltac split_tuple H :=
  repeat (apply pair_eq_inv in H;
          let K := fresh "K" in destruct H as [H K]).

Lemma run_async_beyond l : forall p, beyond_async (run_async l p) = beyond_async p.
Proof.
  unfold run_async.
  induction l as [| a l IH]; intros p; simpl; [reflexivity |].
  rewrite IH. destruct a; simpl; try reflexivity.
  unfold intCb.
  destruct (1 <? interrupted p); [reflexivity |].
  destruct (negb (interrupted p =? 0)); reflexivity.
Qed.

Lemma openStream_save_frame os q :
  frame (fst (openStream_save os q)) = frame q.
Proof.
  destruct (save_dir (settings q)) as [dir |] eqn:E.
  - apply (openStream_save_some os q dir E).
  - rewrite (openStream_save_none os q E). reflexivity.
Qed.

Lemma openStream_save_no_seek os q :
  filter is_seek (snd (openStream_save os q)) = [].
Proof.
  destruct (save_dir (settings q)) as [dir |] eqn:E.
  - destruct (openStream_save_some os q dir E) as (_ & _ & _ & _ & _ & ->).
    unfold muxer_setup_calls.
    destruct (os_save_path_exists os), (os_tmp_dir_exists os),
      (os_target_exists os); reflexivity.
  - rewrite (openStream_save_none os q E). reflexivity.
Qed.

Lemma opened_fields os player :
  let q := opened os player in
  songPlayed q = 0%Q /\
  songDuration q
  = (av_q2d (time_base (os_stream os)) * inject_Z (duration (os_stream os)))%Q
  /\ st q = os_stream os /\ streamIdx q = os_best_stream os /\
  fctx q = Open /\ cctx q = Open /\
  lastTimestamp q = lastTimestamp player /\
  inputs q = inputs player /\
  save_file q = save_file player.
Proof.
  pose proof (run_async_beyond (os_async os) (set_fctx Open player)) as B.
  unfold beyond_async in B.
  assert (Bi : inputs (run_async (os_async os) (set_fctx Open player))
               = inputs player)
    by exact (f_equal
                (fun t => let '(x, _, _, _, _, _, _, _, _, _, _, _, _, _, _,
                                _, _) := t in x) B).
  assert (Bf : fctx (run_async (os_async os) (set_fctx Open player)) = Open)
    by exact (f_equal
                (fun t => let '(_, _, x, _, _, _, _, _, _, _, _, _, _, _, _,
                                _, _) := t in x) B).
  assert (Bl : lastTimestamp (run_async (os_async os) (set_fctx Open player))
               = lastTimestamp player)
    by exact (f_equal
                (fun t => let '(_, _, _, _, _, _, _, _, _, x, _, _, _, _, _,
                                _, _) := t in x) B).
  assert (Bs : save_file (run_async (os_async os) (set_fctx Open player))
               = save_file player)
    by exact (f_equal
                (fun t => let '(_, _, _, _, _, _, _, _, _, _, _, _, x, _, _,
                                _, _) := t in x) B).
  unfold opened.
  cbn [songPlayed songDuration st streamIdx fctx cctx lastTimestamp
       save_file set_songDuration set_songPlayed set_cctx
       set_codec_time_base0 set_st set_streamIdx].
  repeat split; try reflexivity; try assumption.
Qed.

Lemma openStream_true os player p' ev :
  openStream os player = (true, p', ev) ->
  bring_up_ok os = true /\
  p' = fst (openStream_save os (opened os player)) /\
  ev = open_calls os player ++ snd (openStream_save os (opened os player)).
Proof.
  intros H.
  assert (B : bring_up_ok os = true).
  { rewrite <- openStream_result with (player := player). rewrite H.
    reflexivity. }
  rewrite (openStream_ok os player B) in H. inversion H. auto.
Qed.

(** A successful [openStream] resets [songPlayed] to 0, sets
    [songDuration] to the stream's time base times its duration, selects
    a stream with a non-negative index, leaves demuxer and decoder open
    and [lastTimestamp] as it was, and seeks once to [lastTimestamp] on
    the selected stream if that is positive and not at all otherwise. *)
Theorem openStream_success (os : open_script) (player p' : player_t)
    (ev : list event) :
  openStream os player = (true, p', ev) ->
  songPlayed p' = 0%Q /\
  songDuration p'
  = (av_q2d (time_base (os_stream os)) * inject_Z (duration (os_stream os)))%Q
  /\ st p' = os_stream os /\
  streamIdx p' = os_best_stream os /\ 0 <= streamIdx p' /\
  fctx p' = Open /\ cctx p' = Open /\
  lastTimestamp p' = lastTimestamp player /\
  filter is_seek ev
  = (if 0 <? lastTimestamp player
     then [EvSeekFrame (os_best_stream os) (lastTimestamp player)]
     else []).
Proof.
  intros H. destruct (openStream_true _ _ _ _ H) as (B & -> & ->).
  pose proof (openStream_save_frame os (opened os player)) as F.
  destruct (opened_fields os player) as (O1 & O2 & O3 & O4 & O5 & O6 & O7 & _).
  unfold frame in F. split_tuple F.
  apply bring_up_ok_true in B. destruct B as (_ & _ & B3 & _).
  apply Z.ltb_ge in B3.
  repeat split; try congruence.
  - rewrite filter_app, openStream_save_no_seek, app_nil_r.
    unfold open_calls. rewrite filter_app. cbn [filter is_seek app].
    destruct (0 <? lastTimestamp player); reflexivity.
Qed.

Lemma openStream_success_witness :
  songPlayed (snd (fst (openStream Sample.os_ok Sample.player0))) = 0%Q.
Proof.
  destruct (openStream Sample.os_ok Sample.player0) as [[ok p'] ev] eqn:E.
  assert (Hok : ok = true).
  { apply (f_equal (fun x => fst (fst x))) in E. vm_compute in E.
    symmetry. exact E. }
  subst ok. cbn [fst snd].
  exact (proj1 (openStream_success _ _ _ _ E)).
Defined.










(** ** [play] *)

(** A property of traces that holds of every turn the loop can take, from
    states that keep an invariant, holds of the whole loop. *)
Section PlayLift.
Variable Inv : play_st -> Prop.
Variable P : list event -> Prop.
Hypothesis P_nil : P [].
Hypothesis P_app : forall a b, P a -> P b -> P (a ++ b).
Hypothesis turn_ok : forall it s b s' ev,
  loop_guard s = true -> Inv s ->
  play_turn it s = (b, s', ev) -> Inv s' /\ P ev.

Lemma play_loop_lift its : forall s s' turns,
  Inv s -> play_loop its s = (s', turns) ->
  Inv s' /\ P (List.concat turns).
Proof.
  induction its as [| it its IH]; intros s s' turns I; simpl.
  - destruct (loop_guard s) eqn:G; [| intros H; inversion H; subst; auto].
    destruct (play_turn eof_iter s) as [[b s1] e1] eqn:T.
    destruct (turn_ok _ _ _ _ _ G I T) as [I1 P1].
    intros H; inversion H; subst. simpl. rewrite app_nil_r. auto.
  - destruct (loop_guard s) eqn:G; [| intros H; inversion H; subst; auto].
    destruct (play_turn it s) as [[b s1] e1] eqn:T.
    destruct (turn_ok _ _ _ _ _ G I T) as [I1 P1].
    destruct b.
    + intros H; inversion H; subst. simpl. rewrite app_nil_r. auto.
    + destruct (play_loop its s1) as [s2 e2] eqn:L.
      destruct (IH _ _ _ I1 L) as [I2 P2].
      intros H; inversion H; subst. simpl. auto.
Qed.

Lemma play_lift its player r p' turns :
  Inv (mkPlaySt player blank_packet FILL 0) ->
  play its player = (r, p', turns) -> P (List.concat turns).
Proof.
  unfold play. intros I.
  destruct (play_loop its (mkPlaySt player blank_packet FILL 0))
    as [s t] eqn:L.
  destruct (play_loop_lift _ _ _ _ I L) as [_ Q].
  intros H; inversion H; subst. exact Q.
Qed.
End PlayLift.

(** The shape of a turn: the [FILL] block leaves the turn, or the body
    runs after it (or on its own, outside [FILL] mode). *)
Lemma play_turn_parts it s b s' ev :
  play_turn it s = (b, s', ev) ->
  (exists fl,
     ps_drainMode s = FILL /\ fl <> Fall /\ fill_step it s = (fl, s', ev)
     /\ b = match fl with Break => true | _ => false end) \/
  (exists s1 e1 e2,
     (ps_drainMode s = FILL /\ fill_step it s = (Fall, s1, e1)
      \/ ps_drainMode s <> FILL /\ s1 = s /\ e1 = []) /\
     turn_body (it_recv it) s1 = (s', e2) /\ ev = e1 ++ e2 /\ b = false).
Proof.
  unfold play_turn.
  destruct (ps_drainMode s) eqn:M.
  - destruct (fill_step it s) as [[fl s1] e1] eqn:F.
    destruct fl.
    + destruct (turn_body (it_recv it) s1) as [s2 e2] eqn:T.
      intros H; inversion H; subst.
      right. do 3 eexists.
      split; [left; split; [reflexivity | reflexivity] |].
      split; [eassumption |]. split; reflexivity.
    + intros H; inversion H; subst. left. exists Continue.
      split; [reflexivity |]. split; [discriminate |]. auto.
    + intros H; inversion H; subst. left. exists Break.
      split; [reflexivity |]. split; [discriminate |]. auto.
  - destruct (turn_body (it_recv it) s) as [s2 e2] eqn:T.
    intros H; inversion H; subst.
    right. do 3 eexists.
    split; [right; split; [discriminate | split; reflexivity] |].
    split; [eassumption |]. split; reflexivity.
  - destruct (turn_body (it_recv it) s) as [s2 e2] eqn:T.
    intros H; inversion H; subst.
    right. do 3 eexists.
    split; [right; split; [discriminate | split; reflexivity] |].
    split; [eassumption |]. split; reflexivity.
Qed.

(** What the [FILL] block can leave. *)
Lemma fill_step_cases it s fl s' ev :
  fill_step it s = (fl, s', ev) ->
  let p := run_async (it_async it) (ps_player s) in
  let rd := EvReadFrame (it_read_ret it) (it_read_pkt it) in
  ps_player s' = p /\ ps_ret s' = it_read_ret it /\
  ((fl = Fall /\ it_read_ret it = AVERROR_EOF /\ ps_drainMode s' = DRAIN
    /\ ps_pkt s' = it_read_pkt it /\ ev = [rd; EvSendPacket None]) \/
   (fl = Continue /\ it_read_ret it <> AVERROR_EOF
    /\ stream_index (it_read_pkt it) <> streamIdx p
    /\ ps_drainMode s' = FILL /\ ps_pkt s' = blank_packet
    /\ ev = [rd; EvPacketUnref (it_read_pkt it)]) \/
   (fl = Break /\ it_read_ret it < 0 /\ ps_drainMode s' = FILL /\ ev = [rd]) \/
   (fl = Fall /\ it_read_ret it <> AVERROR_EOF /\ 0 <= it_read_ret it
    /\ stream_index (it_read_pkt it) = streamIdx p
    /\ ps_drainMode s' = FILL /\ ps_pkt s' = it_read_pkt it
    /\ ev = [rd; EvSendPacket (Some (it_read_pkt it))])).
Proof.
  unfold fill_step.
  destruct (Z.eqb_spec (it_read_ret it) AVERROR_EOF) as [E | E].
  { intros H; inversion H; subst. cbn.
    split; [reflexivity |]. split; [reflexivity |]. left. auto 10. }
  destruct (Z.eqb_spec (stream_index (it_read_pkt it))
              (streamIdx (run_async (it_async it) (ps_player s))))
    as [I | I]; cbn [negb].
  2:{ intros H; inversion H; subst. cbn.
      split; [reflexivity |]. split; [reflexivity |]. right. left. auto 10. }
  destruct (Z.ltb_spec (it_read_ret it) 0) as [N | N].
  { intros H; inversion H; subst. cbn.
    split; [reflexivity |]. split; [reflexivity |]. right. right. left.
    auto 10. }
  intros H; inversion H; subst. cbn.
  split; [reflexivity |]. split; [reflexivity |]. right. right. right.
  auto 10.
Qed.


Lemma turn_body_player rs s s' ev :
  turn_body rs s = (s', ev) ->
  exists p1 e1,
    receive_loop rs
      (if doPause (ps_player s)
       then set_doPause false (set_pkt_write (ps_pkt s) (ps_player s))
       else set_pkt_write (ps_pkt s) (ps_player s))
      (ps_drainMode s) (ps_ret s)
    = (p1, ps_drainMode s', ps_ret s', e1) /\
    ev = (if save_file (ps_player s)
          then [EvWriteFrame (tee_packet (ps_player s) (ps_pkt s))] else [])
         ++ (if doPause (ps_player s)
             then [EvReadPause; EvCondWait; EvReadPlay] else [])
         ++ e1 ++ [EvPacketUnref (ps_pkt s)] /\
    doQuit (ps_player s') = doQuit p1.
Proof.
  unfold turn_body.
  change (save_file (set_pkt_write (ps_pkt s) (ps_player s)))
    with (save_file (ps_player s)).
  change (doPause (set_pkt_write (ps_pkt s) (ps_player s)))
    with (doPause (ps_player s)).
  change (tee_packet (set_pkt_write (ps_pkt s) (ps_player s)) (ps_pkt s))
    with (tee_packet (ps_player s) (ps_pkt s)).
  destruct (doPause (ps_player s));
    match goal with
    | |- context [receive_loop rs ?q ?m ?r] =>
        destruct (receive_loop rs q m r) as [[[p1 m1] r1] e1] eqn:E
    end;
    intros H; inversion H; subst; cbn [ps_drainMode ps_ret ps_player];
    exists p1, e1; repeat split; reflexivity.
Qed.







Lemma play_loop_ret_irrelevant its p k r1 r2 :
  doQuit p = false ->
  play_loop its (mkPlaySt p k FILL r1) = play_loop its (mkPlaySt p k FILL r2).
Proof.
  intros Q. destruct its as [| it its]; cbn [play_loop];
    unfold loop_guard; cbn [ps_player ps_drainMode]; rewrite Q;
    cbn [negb andb]; reflexivity.
Qed.

(** A read that does not report the end of the stream and leaves in [pkt]
    a stream index other than the selected one is passed over, whatever
    its return code: the packet is released, nothing reaches decoder or
    muxer, and [play] goes on with the next read.  This holds for failed
    reads too: the index is compared before the code is looked at, so a
    read error is only acted on when [pkt] carries the selected index. *)
Theorem play_passes_over_other_index (it : iter_script)
    (its : list iter_script) (player : player_t) :
  it_read_ret it <> AVERROR_EOF ->
  stream_index (it_read_pkt it) <> streamIdx player ->
  doQuit player = false ->
  doQuit (run_async (it_async it) player) = false ->
  play (it :: its) player
  = (let '(r, p', turns) := play its (run_async (it_async it) player) in
     (r, p',
      [EvReadFrame (it_read_ret it) (it_read_pkt it);
       EvPacketUnref (it_read_pkt it)] :: turns)).
Proof.
  intros E I Q Q'.
  unfold play. cbn [play_loop].
  unfold loop_guard at 1. cbn [ps_player ps_drainMode]. rewrite Q.
  cbn [negb andb]. unfold play_turn at 1. cbn [ps_drainMode].
  unfold fill_step. cbn [ps_player].
  apply Z.eqb_neq in E. rewrite E.
  assert (S : streamIdx (run_async (it_async it) player) = streamIdx player).
  { pose proof (run_async_static (it_async it) player) as S.
    unfold static in S. split_tuple S. assumption. }
  rewrite S. apply Z.eqb_neq in I. rewrite I. cbn [negb].
  rewrite (play_loop_ret_irrelevant its _ blank_packet (it_read_ret it) 0 Q').
  destruct (play_loop its _) as [s t]. reflexivity.
Qed.

Lemma play_passes_over_other_index_witness :
  fst (fst (play [mkIter [] (-5) blank_packet []; Sample.turn_eof]
              (set_streamIdx 1 Sample.player0)))
  = fst (fst (play [Sample.turn_eof] (set_streamIdx 1 Sample.player0))).
Proof.
  rewrite (play_passes_over_other_index
             (mkIter [] (-5) blank_packet []) [Sample.turn_eof]
             (set_streamIdx 1 Sample.player0)).
  - cbn [it_async run_async fold_left].
    destruct (play [Sample.turn_eof] (set_streamIdx 1 Sample.player0))
      as [[r p'] turns].
    reflexivity.
  - vm_compute. discriminate.
  - vm_compute. discriminate.
  - reflexivity.
  - reflexivity.
Defined.







Lemma muxer_writes_app a b :
  muxer_writes (a ++ b) = muxer_writes a ++ muxer_writes b.
Proof. unfold muxer_writes. apply flat_map_app. Qed.

(** With saving off, [play] never writes to the muxer. *)
Theorem play_without_saving (its : list iter_script) (player : player_t)
    (r : Z) (p' : player_t) (turns : list (list event)) :
  save_file player = false ->
  play its player = (r, p', turns) ->
  muxer_writes (List.concat turns) = [].
Proof.
  intros SF E.
  apply (play_lift (fun s => save_file (ps_player s) = false)
           (fun ev => muxer_writes ev = [])) with (its := its)
           (player := player) (r := r) (p' := p');
    [reflexivity | | | exact SF | exact E].
  - intros a b A B. rewrite muxer_writes_app, A, B. reflexivity.
  - intros it s b s' ev _ I H. split.
    + rewrite (static_save_file _ _ (play_turn_static _ _ _ _ _ H)). exact I.
    + destruct (play_turn_parts _ _ _ _ _ H)
        as [(fl & _ & _ & Fs & _) | (s1 & e1 & e2 & S & T & -> & _)].
      * destruct (fill_step_cases _ _ _ _ _ Fs) as (_ & _ & C).
        destruct C as [C | [C | [C | C]]];
          repeat match goal with K : _ /\ _ |- _ => destruct K end;
          subst ev; reflexivity.
      * rewrite muxer_writes_app.
        destruct (turn_body_accounting _ _ _ _ T) as (_ & _ & W).
        assert (I1 : save_file (ps_player s1) = false).
        { destruct S as [[_ Fs] | (_ & -> & _)]; [| exact I].
          rewrite (static_save_file _ _ (fill_step_static _ _ _ _ _ Fs)).
          exact I. }
        rewrite W, I1, app_nil_r.
        destruct S as [[_ Fs] | (_ & _ & ->)]; [| reflexivity].
        destruct (fill_step_cases _ _ _ _ _ Fs) as (_ & _ & C).
        destruct C as [C | [C | [C | C]]];
          repeat match goal with K : _ /\ _ |- _ => destruct K end;
          subst e1; reflexivity.
Qed.

Lemma play_without_saving_witness :
  muxer_writes
    (List.concat (snd (play [Sample.turn_ok 1 1024; Sample.turn_eof]
                         Sample.player0))) = [].
Proof.
  destruct (play [Sample.turn_ok 1 1024; Sample.turn_eof] Sample.player0)
    as [[r p'] turns] eqn:E.
  exact (play_without_saving _ Sample.player0 _ _ _ eq_refl E).
Defined.

(** ** The interrupt callback over several polls *)






(** ** The cycle and the worker *)

Lemma openFilter_form fs p :
  exists msg,
    openFilter fs p
    = (filter_ok fs, set_fgraph (fs_graph_alloc fs) p,
       EvGraphAlloc :: (if filter_ok fs then [] else [EvMsg msg])).
Proof.
  unfold openFilter, softfail, filter_ok. cbn [fgraph set_fgraph].
  destruct (fs_graph_alloc fs); [eexists; reflexivity |].
  destruct (fs_abuffer fs <? 0); [eexists; reflexivity |].
  destruct (fs_volume fs <? 0); [eexists; reflexivity |].
  destruct (fs_aformat fs <? 0); [eexists; reflexivity |].
  destruct (fs_abuffersink fs <? 0); [eexists; reflexivity |].
  destruct (fs_link1 fs =? 0);
    [| eexists; reflexivity].
  destruct (fs_link2 fs =? 0);
    [| eexists; reflexivity].
  destruct (fs_link3 fs =? 0);
    [| eexists; reflexivity].
  destruct (fs_graph_config fs <? 0);
    [eexists; reflexivity | exists EmptyString; reflexivity].
Qed.

Lemma openDevice_form dev p :
  openDevice dev p
  = (is_open dev, set_aoDev dev p,
     EvAoOpenLive
     :: (if is_open dev then [] else [EvMsg "Cannot open audio device."])).
Proof. unfold openDevice. cbn [aoDev set_aoDev]. destruct dev; reflexivity. Qed.

Lemma finish_form p :
  finish p
  = (set_fctx NULL (set_cctx NULL (set_fgraph NULL (set_aoDev NULL p))),
     EvAoClose (aoDev p)
     :: (if is_open (fgraph p) then [EvGraphFree] else [])
     ++ (if is_open (cctx p) then [EvCodecClose] else [])
     ++ (if is_open (fctx p) then [EvCloseInput] else [])).
Proof.
  destruct p as [u a al t aa s g m q pa i fc ctb cc fg ao si stm lt sp sd
                   sf o tf sc pw].
  destruct fc, cc, fg; reflexivity.
Qed.

Lemma play_quit its p : doQuit p = true -> play its p = (0, p, []).
Proof.
  intros Q. unfold play.
  destruct its; cbn [play_loop]; unfold loop_guard; cbn [ps_player];
    rewrite Q; reflexivity.
Qed.

(** The worker's result for one cycle entered with [PLAYER_RET_OK]: it is
    what the cycle's answers decide, whatever [play] returned.  The same
    with the turn of the loop written out. *)
Lemma attempt_unfold c pret q :
  exists msg,
  attempt c pret q
  = (let '(ok, p1, ev1) := openStream (cs_open c) q in
     if ok then
       let p2 := set_fgraph (fs_graph_alloc (cs_filter c)) p1 in
       let evf := EvGraphAlloc
                  :: (if filter_ok (cs_filter c) then [] else [EvMsg msg]) in
       if filter_ok (cs_filter c) then
         let p3 := set_aoDev (cs_device c) p2 in
         let evd := EvAoOpenLive
                    :: (if is_open (cs_device c) then []
                        else [EvMsg "Cannot open audio device."]) in
         if is_open (cs_device c) then
           let p4 := set_mode PLAYER_PLAYING p3 in
           let '(r, pp, turns) := play (cs_play c) p4 in
           mkAttempt ((r =? AVERROR_INVALIDDATA) && (interrupted pp =? 0))
             pret (fst (finish (set_mode PLAYER_WAITING pp))) true
             (Some (r, pp))
             ((ev1 ++ evf ++ evd ++ BarPlayerSetVolume (cs_volume c) p4
               ++ List.concat turns)
              ++ snd (finish (set_mode PLAYER_WAITING pp)))
         else
           mkAttempt false PLAYER_RET_HARDFAIL
             (fst (finish (set_mode PLAYER_WAITING p3))) true None
             ((ev1 ++ evf ++ evd)
              ++ snd (finish (set_mode PLAYER_WAITING p3)))
       else
         mkAttempt false PLAYER_RET_HARDFAIL
           (fst (finish (set_mode PLAYER_WAITING p2))) true None
           ((ev1 ++ evf ++ [])
            ++ snd (finish (set_mode PLAYER_WAITING p2)))
     else
       mkAttempt false PLAYER_RET_SOFTFAIL
         (fst (finish (set_mode PLAYER_WAITING p1))) false None
         (ev1 ++ snd (finish (set_mode PLAYER_WAITING p1)))).
Proof.
  unfold attempt.
  destruct (openStream (cs_open c) q) as [[ok p1] ev1].
  destruct ok.
  - destruct (openFilter_form (cs_filter c) p1) as [msg E].
    exists msg. rewrite E.
    destruct (filter_ok (cs_filter c)).
    + rewrite openDevice_form. destruct (is_open (cs_device c)).
      * cbn [andb].
        destruct (play (cs_play c) _) as [[r pp] turns].
        destruct (finish _). reflexivity.
      * cbn [andb]. destruct (finish _). reflexivity.
    + cbn [andb]. destruct (finish _). reflexivity.
  - exists EmptyString. destruct (finish _). reflexivity.
Qed.

Lemma attempt_outcome c q :
  at_pret (attempt c PLAYER_RET_OK q) = cycle_outcome c.
Proof.
  destruct (attempt_unfold c PLAYER_RET_OK q) as [msg ->].
  unfold cycle_outcome.
  rewrite <- (openStream_result (cs_open c) q).
  destruct (openStream (cs_open c) q) as [[ok p1] ev1]. cbn [fst].
  destruct ok; [| reflexivity].
  destruct (filter_ok (cs_filter c)); [| reflexivity].
  destruct (is_open (cs_device c)); [| reflexivity].
  cbn [andb]. destruct (play (cs_play c) _) as [[r pp] turns]. reflexivity.
Qed.

Lemma retry_loop_final cs : forall player pret p1 ev,
  retry_loop cs PLAYER_RET_OK player = Some (pret, p1, ev) ->
  exists c q,
    In c cs /\ pret = cycle_outcome c /\
    p1 = at_player (attempt c PLAYER_RET_OK q) /\
    at_retry (attempt c PLAYER_RET_OK q) = false.
Proof.
  induction cs as [| c cs IH]; intros player pret p1 ev; [discriminate |].
  cbn [retry_loop].
  destruct (attempt_locals c PLAYER_RET_OK player) as (R & P & _ & _).
  destruct (at_retry (attempt c PLAYER_RET_OK player)) eqn:T.
  - assert (P' : at_pret (attempt c PLAYER_RET_OK player) = PLAYER_RET_OK).
    { rewrite P.
      destruct (at_played (attempt c PLAYER_RET_OK player)) as [[r0 pp0] |];
        [reflexivity | discriminate]. }
    rewrite P'.
    destruct (retry_loop cs PLAYER_RET_OK _) as [[[r1 q1] e1] |] eqn:L;
      [| discriminate].
    intros H; inversion H; subst.
    destruct (IH _ _ _ _ L) as (c' & q & HIn & E1 & E2 & F).
    exists c', q. repeat split; auto. right. exact HIn.
  - intros H; inversion H; subst.
    exists c, player.
    split; [left; reflexivity |].
    split; [first [apply attempt_outcome | symmetry; apply attempt_outcome] |].
    split; [reflexivity | exact T].
Qed.

Lemma held_nil p :
  held p = [] ->
  aoDev p = NULL /\ fgraph p = NULL /\ cctx p = NULL /\ fctx p = NULL.
Proof.
  unfold held.
  destruct (aoDev p), (fgraph p), (cctx p), (fctx p); cbn;
    intros H; try discriminate; auto.
Qed.

(** Whenever the worker returns, the mode is [PLAYER_FINISHED] and
    output device, filter graph, decoder and demuxer are all null: every
    way out of the loop, failed open and failed device included, goes
    through [finish]. *)
Theorem worker_leaves_nothing_open (cs : list cycle_script)
    (player : player_t) (pret : player_ret) (p' : player_t)
    (ev : list event) :
  BarPlayerThread cs player = Some (pret, p', ev) ->
  mode p' = PLAYER_FINISHED /\ held p' = [] /\
  aoDev p' = NULL /\ fgraph p' = NULL /\ cctx p' = NULL /\ fctx p' = NULL.
Proof.
  unfold BarPlayerThread.
  destruct (retry_loop cs PLAYER_RET_OK player) as [[[r1 p1] e1] |] eqn:L;
    [| discriminate].
  intros H; inversion H; subst.
  destruct (retry_loop_final _ _ _ _ _ L) as (c & q & _ & _ & E & _).
  destruct (attempt_player c PLAYER_RET_OK q) as (Hh & _ & _).
  rewrite <- E in Hh.
  split; [reflexivity |].
  change (held (set_mode PLAYER_FINISHED p1)) with (held p1).
  split; [exact Hh |].
  apply held_nil in Hh. exact Hh.
Qed.

Lemma worker_leaves_nothing_open_witness :
  exists pret p' ev,
    BarPlayerThread [Sample.c_io_error] Sample.player0 = Some (pret, p', ev)
    /\ mode p' = PLAYER_FINISHED /\ held p' = [].
Proof.
  assert (E : exists x,
             BarPlayerThread [Sample.c_io_error] Sample.player0 = Some x).
  { vm_compute. eexists. reflexivity. }
  destruct E as [[[pret p'] ev] E].
  exists pret, p', ev. split; [exact E |].
  destruct (worker_leaves_nothing_open _ _ _ _ _ E) as (A & B & _).
  split; assumption.
Defined.



(** ** What [play] writes *)

Lemma run_async_play_frame l : forall p,
  play_frame (run_async l p) = play_frame p.
Proof.
  unfold run_async.
  induction l as [| a l IH]; intros p; simpl; [reflexivity |].
  rewrite IH. destruct a; simpl; try reflexivity.
  unfold intCb.
  destruct (1 <? interrupted p); [reflexivity |].
  destruct (negb (interrupted p =? 0)); reflexivity.
Qed.

Lemma receive_loop_play_frame rs : forall p m r p' m' r' ev,
  receive_loop rs p m r = (p', m', r', ev) -> play_frame p' = play_frame p.
Proof.
  induction rs as [| x rs IH]; intros p m r p' m' r' ev; simpl.
  - destruct (doQuit p); intros H; inversion H; reflexivity.
  - destruct (doQuit p); [intros H; inversion H; reflexivity |].
    destruct (rc_ret x =? AVERROR_EOF).
    { intros H; inversion H; subst. apply run_async_play_frame. }
    destruct (negb (rc_ret x =? 0)).
    { intros H; inversion H; subst. apply run_async_play_frame. }
    destruct (receive_loop rs (run_async (rc_async x) p) m 0)
      as [[[p1 m1] r1] e1] eqn:E.
    intros H; inversion H; subst.
    rewrite (IH _ _ _ _ _ _ _ E). apply run_async_play_frame.
Qed.

Lemma turn_body_play_frame rs s s' ev :
  turn_body rs s = (s', ev) ->
  play_frame (ps_player s') = play_frame (ps_player s).
Proof.
  unfold turn_body.
  destruct (doPause (set_pkt_write (ps_pkt s) (ps_player s)));
    match goal with
    | |- context [receive_loop rs ?q ?m ?r] =>
        destruct (receive_loop rs q m r) as [[[p1 m1] r1] e1] eqn:E
    end;
    intros H; inversion H; subst; cbn [ps_player];
    apply receive_loop_play_frame in E;
    (transitivity (play_frame p1); [reflexivity | rewrite E; reflexivity]).
Qed.

Lemma play_turn_play_frame it s b s' ev :
  play_turn it s = (b, s', ev) ->
  play_frame (ps_player s') = play_frame (ps_player s).
Proof.
  intros H.
  assert (F : forall fl s1 e1, fill_step it s = (fl, s1, e1) ->
                play_frame (ps_player s1) = play_frame (ps_player s)).
  { intros fl s1 e1 F. destruct (fill_step_cases _ _ _ _ _ F) as (-> & _).
    apply run_async_play_frame. }
  destruct (play_turn_parts _ _ _ _ _ H)
    as [(fl & _ & _ & Fs & _) | (s1 & e1 & e2 & S & T & _ & _)].
  - eapply F; eauto.
  - rewrite (turn_body_play_frame _ _ _ _ T).
    destruct S as [[_ Fs] | (_ & -> & _)]; [eapply F; eauto | reflexivity].
Qed.

(** [play] writes [songPlayed], [lastTimestamp], [pkt_write] and the
    pause flag, and nothing else of the player apart from what the
    control thread and the interrupt callback write meanwhile: the mode,
    the four handles, the stream selection, [songDuration], [save_file],
    the muxer and both paths come out as they went in. *)
Theorem play_writes_timestamps_only (its : list iter_script)
    (player : player_t) :
  play_frame (snd (fst (play its player))) = play_frame player.
Proof.
  unfold play.
  destruct (play_loop its (mkPlaySt player blank_packet FILL 0))
    as [s t] eqn:L. cbn [fst snd].
  assert (T : forall it s0 b s1 ev,
             loop_guard s0 = true ->
             play_frame (ps_player s0) = play_frame player ->
             play_turn it s0 = (b, s1, ev) ->
             play_frame (ps_player s1) = play_frame player /\ True).
  { intros it s0 b s1 ev _ I0 H. split; [| exact I].
    rewrite (play_turn_play_frame _ _ _ _ _ H). exact I0. }
  exact (proj1 (play_loop_lift
                  (fun s => play_frame (ps_player s) = play_frame player)
                  (fun _ => True) I (fun _ _ _ _ => I) T its
                  (mkPlaySt player blank_packet FILL 0) s t eq_refl L)).
Qed.

(** ** Acquire and release *)














(** ** Quit *)

(** A cycle entered with [doQuit] set neither reads nor decodes nor plays
    nor writes to the muxer, and does not ask for a retry; the worker
    returns after it, with the result the cycle's answers decide, and
    makes no call after the cycle's [finish]: no trailer, no transcode. *)
Theorem quit_ends_the_session (c : cycle_script) (rest : list cycle_script)
    (player : player_t) :
  doQuit player = true ->
  at_retry (attempt c PLAYER_RET_OK player) = false /\
  no_playback (at_events (attempt c PLAYER_RET_OK player)) /\
  BarPlayerThread (c :: rest) player
  = Some (cycle_outcome c,
          set_mode PLAYER_FINISHED (at_player (attempt c PLAYER_RET_OK player)),
          at_events (attempt c PLAYER_RET_OK player)).
Proof.
  intros Q.
  pose proof (attempt_doQuit c PLAYER_RET_OK player Q) as QA.
  pose proof (attempt_outcome c player) as OA.
  assert (RN : at_retry (attempt c PLAYER_RET_OK player) = false
               /\ no_playback (at_events (attempt c PLAYER_RET_OK player))).
  { clear QA OA.
    destruct (attempt_unfold c PLAYER_RET_OK player) as [msg ->].
    pose proof (openStream_doQuit (cs_open c) player Q) as Q1.
    pose proof (proj2 (openStream_events (cs_open c) player)) as N1.
    destruct (openStream (cs_open c) player) as [[ok p1] ev1].
    cbn [fst snd] in Q1, N1. unfold no_playback in *.
    destruct ok.
    - destruct (filter_ok (cs_filter c)).
      + destruct (is_open (cs_device c)).
        * rewrite play_quit by exact Q1.
          cbn [at_retry at_events]. split; [reflexivity |].
          pose proof (proj2 (BarPlayerSetVolume_events (cs_volume c)
                               (set_mode PLAYER_PLAYING
                                  (set_aoDev (cs_device c)
                                     (set_fgraph
                                        (fs_graph_alloc (cs_filter c)) p1)))))
            as N2.
          pose proof (proj2 (finish_events
                               (set_mode PLAYER_WAITING
                                  (set_mode PLAYER_PLAYING
                                     (set_aoDev (cs_device c)
                                        (set_fgraph
                                           (fs_graph_alloc (cs_filter c))
                                           p1)))))) as N3.
          unfold no_playback in *.
          repeat (apply Forall_app; split); try assumption;
            repeat constructor.
        * cbn [at_retry at_events]. split; [reflexivity |].
          pose proof (proj2 (finish_events
                               (set_mode PLAYER_WAITING
                                  (set_aoDev (cs_device c)
                                     (set_fgraph
                                        (fs_graph_alloc (cs_filter c))
                                        p1))))) as N3.
          unfold no_playback in *.
          repeat (apply Forall_app; split); try assumption;
            repeat constructor.
      + cbn [at_retry at_events]. split; [reflexivity |].
        pose proof (proj2 (finish_events
                             (set_mode PLAYER_WAITING
                                (set_fgraph (fs_graph_alloc (cs_filter c))
                                   p1)))) as N3.
        unfold no_playback in *.
        repeat (apply Forall_app; split); try assumption;
          repeat constructor.
    - cbn [at_retry at_events]. split; [reflexivity |].
      pose proof (proj2 (finish_events (set_mode PLAYER_WAITING p1))) as N3.
      unfold no_playback in *.
      repeat (apply Forall_app; split); try assumption. }
  destruct RN as [R N]. split; [exact R |]. split; [exact N |].
  unfold BarPlayerThread. cbn [retry_loop]. rewrite R, OA.
  change (doQuit (set_mode PLAYER_FINISHED
                    (at_player (attempt c PLAYER_RET_OK player))))
    with (doQuit (at_player (attempt c PLAYER_RET_OK player))).
  rewrite QA, andb_false_r, app_nil_r. reflexivity.
Qed.

Lemma quit_ends_the_session_witness :
  no_playback
    (at_events (attempt Sample.c_song PLAYER_RET_OK
                  (set_doQuit true Sample.player_save))).
Proof.
  exact (proj1 (proj2 (quit_ends_the_session Sample.c_song []
                         (set_doQuit true Sample.player_save) eq_refl))).
Defined.

(** ** Which calls are made where *)

Lemma filter_none (f g : event -> bool) l :
  (forall e, g e = true -> f e = false) ->
  forallb g l = true -> filter f l = [].
Proof.
  intros F. induction l as [| e l IH]; simpl; [reflexivity |].
  intros H. apply andb_prop in H. destruct H as [H1 H2].
  rewrite (F e H1). apply IH. exact H2.
Qed.

Lemma openStream_calls os q :
  forallb is_open_call (snd (openStream os q)) = true.
Proof.
  destruct (bring_up_ok os) eqn:B.
  - rewrite (openStream_ok os q B). cbn [snd]. rewrite forallb_app.
    assert (S : forallb is_open_call (snd (openStream_save os (opened os q)))
                = true).
    { destruct (save_dir (settings (opened os q))) as [dir |] eqn:D.
      - destruct (openStream_save_some os _ dir D)
          as (_ & _ & _ & _ & _ & ->).
        unfold muxer_setup_calls.
        destruct (os_save_path_exists os), (os_tmp_dir_exists os),
          (os_target_exists os); reflexivity.
      - rewrite (openStream_save_none os _ D). reflexivity. }
    rewrite S. unfold open_calls.
    destruct (0 <? lastTimestamp q); reflexivity.
  - destruct (openStream os q) as [[ok p'] ev] eqn:E.
    assert (Hok : ok = false).
    { rewrite <- B, <- openStream_result with (player := q), E.
      reflexivity. }
    subst ok. cbn [snd].
    destruct (openStream_failure _ _ _ _ E) as (_ & pre & msg & -> & P).
    rewrite forallb_app. cbn. rewrite andb_true_r.
    clear - P. induction pre as [| e l IH]; simpl in *; [reflexivity |].
    apply andb_prop in P. destruct P as [P1 P2]. rewrite (IH P2).
    destruct e; try discriminate; reflexivity.
Qed.

Lemma decoder_side_calls l :
  Forall decoder_side l -> forallb is_play_call l = true.
Proof.
  induction 1 as [| e l He _ IH]; simpl; [reflexivity |].
  rewrite IH. destruct e; try contradiction; reflexivity.
Qed.

Lemma play_turn_calls it s b s' ev :
  play_turn it s = (b, s', ev) -> forallb is_play_call ev = true.
Proof.
  intros H.
  assert (F : forall fl s1 e1, fill_step it s = (fl, s1, e1) ->
                               forallb is_play_call e1 = true).
  { intros fl s1 e1 F. destruct (fill_step_cases _ _ _ _ _ F) as (_ & _ & C).
    destruct C as [C | [C | [C | C]]];
      repeat match goal with K : _ /\ _ |- _ => destruct K end;
      subst e1; reflexivity. }
  destruct (play_turn_parts _ _ _ _ _ H)
    as [(fl & _ & _ & Fs & _) | (s1 & e1 & e2 & S & T & -> & _)].
  - eapply F; eauto.
  - rewrite forallb_app.
    assert (R1 : forallb is_play_call e1 = true).
    { destruct S as [[_ Fs] | (_ & _ & ->)]; [eapply F; eauto | reflexivity]. }
    rewrite R1.
    destruct (turn_body_player _ _ _ _ T) as (p1 & e & L & -> & _).
    apply receive_loop_decoder_side in L.
    rewrite !forallb_app, (decoder_side_calls _ L).
    destruct (save_file (ps_player s1)), (doPause (ps_player s1));
      reflexivity.
Qed.

(** [play] only reads, sends, receives, filters, plays, tees and pauses:
    it never seeks, never opens or closes a handle, never runs a command,
    never reports an error and never sets the volume. *)
Theorem play_calls (its : list iter_script) (player : player_t) :
  forallb is_play_call (List.concat (snd (play its player))) = true.
Proof.
  destruct (play its player) as [[r p'] turns] eqn:E. cbn [snd].
  apply (play_lift (fun _ => True)
           (fun ev => forallb is_play_call ev = true)) with (its := its)
           (player := player) (r := r) (p' := p');
    [reflexivity | | | exact I | exact E].
  - intros a b A B. rewrite forallb_app, A, B. reflexivity.
  - intros it s b s' ev _ _ H. split; [exact I |].
    eapply play_turn_calls; eauto.
Qed.

(** In a cycle that reaches [play] the volume is set once, to the base
    volume plus gain times the gain multiplier of the caller's settings;
    in a cycle that does not reach [play] it is not set at all. *)
Theorem volume_set_once_per_played_cycle (c : cycle_script)
    (pret : player_ret) (q : player_t) :
  filter is_volume (at_events (attempt c pret q))
  = match cycle_outcome c with
    | PLAYER_RET_OK =>
        [EvSendCommandVolume
           (inject_Z (volume (settings q)) + gain q * gainMul (settings q))%Q]
    | _ => []
    end.
Proof.
  destruct (attempt_unfold c pret q) as [msg ->].
  unfold cycle_outcome.
  pose proof (openStream_result (cs_open c) q) as RO.
  pose proof (openStream_calls (cs_open c) q) as CL.
  assert (NV : forall l, forallb is_open_call l = true ->
                         filter is_volume l = []).
  { intros l. apply filter_none. intros e. destruct e; try discriminate;
      reflexivity. }
  assert (NP : forall l, forallb is_play_call l = true ->
                         filter is_volume l = []).
  { intros l. apply filter_none. intros e. destruct e; try discriminate;
      reflexivity. }
  assert (NF : forall p, filter is_volume (snd (finish p)) = []).
  { intros p. rewrite finish_form. cbn [snd].
    destruct (is_open (fgraph p)), (is_open (cctx p)), (is_open (fctx p));
      reflexivity. }
  destruct (openStream (cs_open c) q) as [[ok p1] ev1] eqn:EO.
  cbn [fst snd] in RO, CL. subst ok.
  destruct (bring_up_ok (cs_open c)) eqn:B.
  - destruct (openStream_true _ _ _ _ EO) as (_ & E1 & _).
    assert (In1 : inputs p1 = inputs q).
    { pose proof (openStream_save_frame (cs_open c) (opened (cs_open c) q))
        as F.
      rewrite <- E1 in F. unfold frame in F. split_tuple F.
      destruct (opened_fields (cs_open c) q)
        as (_ & _ & _ & _ & _ & _ & _ & I & _).
      congruence. }
    unfold inputs in In1. split_tuple In1.
    destruct (filter_ok (cs_filter c)).
    + destruct (is_open (cs_device c)).
      * cbn [andb].
        pose proof (play_calls (cs_play c)
                      (set_mode PLAYER_PLAYING
                         (set_aoDev (cs_device c)
                            (set_fgraph (fs_graph_alloc (cs_filter c)) p1))))
          as PC.
        destruct (play (cs_play c) _) as [[r pp] turns].
        cbn [snd] in PC. cbn [at_events].
        rewrite !filter_app, (NV _ CL), (NP _ PC), NF.
        unfold BarPlayerSetVolume.
        cbn [mode set_mode settings gain set_aoDev set_fgraph].
        destruct (cs_volume c <? 0); cbn; congruence.
      * cbn [andb at_events].
        rewrite !filter_app, (NV _ CL), NF. reflexivity.
    + cbn [andb at_events].
      rewrite !filter_app, (NV _ CL), NF. reflexivity.
  - cbn [at_events]. rewrite !filter_app, (NV _ CL), NF. reflexivity.
Qed.

Lemma play_accounting_witness :
  sent_packets
    (List.concat (snd (play [Sample.turn_ok 1 1024; Sample.turn_eof]
                         Sample.player_playing)))
  = filter (selected Sample.player_playing)
      (read_packets
         (List.concat (snd (play [Sample.turn_ok 1 1024; Sample.turn_eof]
                              Sample.player_playing)))).
Proof.
  destruct (play [Sample.turn_ok 1 1024; Sample.turn_eof]
              Sample.player_playing) as [[r p'] turns] eqn:E.
  exact (proj2 (play_accounting _ _ _ _ _ E)).
Defined.
